(** * hono-vs-nextjs: the tabbed comparison page

    A shallow embedding of the React components of the page
    ([FileTree], [CodeBlock] and [App]) together with the static content
    table, and the properties of the content selection and of the
    asynchronous highlighting that the specification states.

    JavaScript strings are [string]; the [comparisons] object is a
    [gmap] keyed by strings; a component instance with [useState] is a
    record holding its state; pending promises are an explicit queue. *)

From stdpp Require Import base strings list gmap.

Local Open Scope string_scope.
Local Open Scope list_scope.
Local Open Scope stdpp_scope.

(** The double-quote character, for the two places where the page's
    text quotes the official documentation. *)
Definition dquote : string := String (Ascii.ascii_of_nat 34) EmptyString.

(** ** Static content (the template literals at the top of App.tsx) *)

Module Content.

Definition nextjsFileTree : string :=
"app/
├── api/
│   ├── users/
│   │   └── route.ts        ← GET /api/users
│   ├── posts/
│   │   ├── route.ts        ← GET /api/posts
│   │   └── [id]/
│   │       └── route.ts    ← GET /api/posts/:id
│   ├── auth/
│   │   ├── login/
│   │   │   └── route.ts    ← POST /api/auth/login
│   │   └── logout/
│   │       └── route.ts    ← POST /api/auth/logout
│   └── comments/
│       └── route.ts        ← GET /api/comments

6 files for 6 endpoints
⚠️ Adding a new endpoint = create a new file".

Definition honoFileTree : string :=
"app/
└── api/
    └── [[...route]]/
        └── route.ts        ← ALL endpoints here!

// Inside route.ts:
import { Hono } from 'hono'
import { handle } from 'hono/vercel'

const app = new Hono().basePath('/api')

app.get('/users', ...)
app.get('/posts', ...)
app.get('/posts/:id', ...)
app.post('/auth/login', ...)
app.post('/auth/logout', ...)
app.get('/comments', ...)

export const GET = handle(app)
export const POST = handle(app)

✅ 1 file for all endpoints
✅ Adding new endpoint = add one line".

Definition nextjsAuthCode : string :=
"// lib/auth.ts
export async function verifyAuth(request: Request) {
  const token = request.headers.get('authorization')
  if (!token) throw new Error('Unauthorized')
  return { userId: '123' }
}

// app/api/users/route.ts
import { verifyAuth } from '@/lib/auth'

export async function GET(request: Request) {
  try {
    const { userId } = await verifyAuth(request)
    return Response.json({ users: [], userId })
  } catch {
    return Response.json({ error: 'Unauthorized' }, { status: 401 })
  }
}

// app/api/posts/route.ts - Must repeat auth logic
export async function GET(request: Request) {
  try {
    const { userId } = await verifyAuth(request)
    // ... repeated pattern
  } catch {
    return Response.json({ error: 'Unauthorized' }, { status: 401 })
  }
}".

Definition honoAuthCode : string :=
"// app/api/[[...route]]/route.ts
import { Hono } from 'hono'

const app = new Hono().basePath('/api')

// Auth middleware - defined once
app.use('/protected/*', async (c, next) => {
  const token = c.req.header('authorization')
  if (!token) {
    return c.json({ error: 'Unauthorized' }, 401)
  }
  c.set('userId', '123')  // Store in context
  await next()
})

// All protected routes automatically inherit auth
app.get('/protected/users', (c) => {
  const userId = c.get('userId')  // Retrieve from context
  return c.json({ users: [], userId })
})

app.get('/protected/posts', (c) => {
  const userId = c.get('userId')
  // No auth logic needed here
  return c.json({ posts: [], userId })
})".

Definition nextjsErrorCode : string :=
"// app/api/users/route.ts
export async function GET() {
  try {
    const users = await fetchUsers()
    return Response.json({ users })
  } catch (error) {
    return Response.json(
      { message: 'An error occurred' },
      { status: 500 }
    )
  }
}

// app/api/posts/route.ts - Different error format
export async function GET() {
  try {
    const posts = await fetchPosts()
    return Response.json({ posts })
  } catch (err) {
    return Response.json(
      { error: 'Failed to load', details: err.message },
      { status: 500 }
    )
  }
}

// Inconsistent error formats across routes".

Definition honoErrorCode : string :=
"import { Hono, HTTPException } from 'hono'

const app = new Hono()

// Global error handler - catches ALL errors
app.onError((err, c) => {
  if (err instanceof HTTPException) {
    return err.getResponse()
  }
  console.error('Server error:', err)
  return c.json({
    error: 'internal_server_error',
    message: err.message,
    timestamp: new Date().toISOString()
  }, 500)
})

// Throw anywhere - consistent format guaranteed
app.get('/users/:id', async (c) => {
  const id = c.req.param('id')
  if (!id) {
    throw new HTTPException(400, { message: 'Invalid ID' })
  }
  const user = await getUser(id)
  if (!user) {
    throw new HTTPException(404, { message: 'User not found' })
  }
  return c.json({ user })
})

// All errors follow the same format".

Definition nextjsMiddlewareCode : string :=
"// middleware.ts
// ⚠️ Next.js middleware is NOT designed for API layer
// Official docs: " +:+ dquote +:+ "Do not recommend Middleware as sole 
// method of protecting routes" +:+ dquote +:+ "

// Designed for: redirects, rewrites, page-level auth
// NOT for: API authentication, business logic

export function middleware(request: NextRequest) {
  const path = request.nextUrl.pathname
  
  // ✅ Good: Page-level redirects
  if (path.startsWith('/dashboard')) {
    const session = request.cookies.get('session')
    if (!session) {
      return NextResponse.redirect('/login')
    }
  }
  return NextResponse.next()
}

// Exclude API routes - middleware shouldn't touch APIs
export const config = {
  matcher: ['/((?!api|_next).*" +:+ ")'],
}".

Definition honoMiddlewareCode : string :=
"// app/api/[[...route]]/route.ts
import { Hono } from 'hono'

const app = new Hono().basePath('/api')

// ✅ Hono middleware runs WITHIN your API handler
// Perfect for: auth, logging, validation, CORS

app.use('/protected/*', async (c, next) => {
  const token = c.req.header('authorization')
  if (!token) {
    return c.json({ error: 'Unauthorized' }, 401)
  }
  // Verify token, set user in context
  c.set('userId', verifyToken(token))
  await next()
})

// Protected routes automatically inherit auth
app.get('/protected/users', (c) => {
  const userId = c.get('userId')
  return c.json({ users: [], userId })
})".

Definition nextjsRoutingCode : string :=
"// Routing is implicit via file structure
// Each folder = route segment
// Each route.ts = endpoint handler

app/
├── api/
│   ├── users/
│   │   ├── route.ts        → /api/users
│   │   └── [id]/
│   │       └── route.ts    → /api/users/:id
│   └── posts/
│       └── route.ts        → /api/posts

// route.ts exports HTTP methods
export async function GET(request: Request) { }
export async function POST(request: Request) { }
export async function PUT(request: Request) { }
export async function DELETE(request: Request) { }

// No explicit route registration
// Routes determined by file location".

Definition honoRoutingCode : string :=
"// app/api/[[...route]]/route.ts
import { Hono } from 'hono'

const app = new Hono().basePath('/api')

// Explicit, programmatic routing
app.get('/users', listUsers)
app.get('/users/:id', getUser)
app.post('/users', createUser)
app.put('/users/:id', updateUser)
app.delete('/users/:id', deleteUser)

// Route groups with shared middleware
const protectedRoutes = new Hono()
protectedRoutes.use('*', authMiddleware)
protectedRoutes.get('/profile', getProfile)
protectedRoutes.put('/profile', updateProfile)

app.route('/protected', protectedRoutes)

// Mount sub-apps
import { blogApp } from './blog'
app.route('/blog', blogApp)

// Full control over routing structure
export const GET = handle(app)
export const POST = handle(app)
export const PUT = handle(app)
export const DELETE = handle(app)".

Definition honoRpcServerCode : string :=
"// server.ts
import { Hono } from 'hono'
import { zValidator } from '@hono/zod-validator'
import { z } from 'zod'

const app = new Hono()

const postSchema = z.object({
  title: z.string().min(1),
  body: z.string(),
})

const routes = app
  .get('/posts', (c) => c.json({ posts: [] }))
  .post('/posts', 
    zValidator('json', postSchema),
    (c) => {
      const { title, body } = c.req.valid('json')
      return c.json({ created: true, title, body }, 201)
    }
  )
  .get('/posts/:id', (c) => {
    const id = c.req.param('id')
    return c.json({ id, title: 'Post Title', body: 'Content' })
  })

// Export type for client
export type AppRoutes = typeof routes
export default app".

Definition honoRpcClientCode : string :=
"// client.ts (in frontend or another project)
import { hc } from 'hono/client'
import type { AppRoutes } from './server'

// Create type-safe client
const client = hc<AppRoutes>('http://localhost:3000/api/')

// Full TypeScript support
const response = await client.posts.$get()
const data = await response.json()
//    ^? { posts: [] }

// Type-safe POST with validation
const createRes = await client.posts.$post({
  json: {
    title: 'Hello',
    body: 'World',
  }
})

// Auto-completion for all routes
// Compile-time error for wrong params
const post = await client.posts[':id'].$get({
  param: { id: '123' }
})".

End Content.

(** ** The rendered tree

    What a component returns: text, an element with a class list and
    children, or an element whose content is raw markup
    ([dangerouslySetInnerHTML]). *)

#[local] Set Warnings "-register-all".

Inductive Node :=
| Text (s : string)
| Elem (tag className : string) (children : list Node)
| RawHtml (tag className __html : string).

(** Elements with a given tag, in document order. *)
Fixpoint byTag (t : string) (n : Node) : list Node :=
  match n with
  | Text _ => []
  | Elem tag _ kids =>
      (if tag =? t then [n] else []) ++ flat_map (byTag t) kids
  | RawHtml tag _ _ => if tag =? t then [n] else []
  end.

(** The text a reader sees in the text nodes (raw markup is not text). *)
Fixpoint textContent (n : Node) : string :=
  match n with
  | Text s => s
  | Elem _ _ kids => fold_right (fun k acc => textContent k +:+ acc) EmptyString kids
  | RawHtml _ _ _ => EmptyString
  end.

(** The raw markup placed in the page, in document order. *)
Fixpoint rawMarkup (n : Node) : list string :=
  match n with
  | Text _ => []
  | Elem _ _ kids => flat_map rawMarkup kids
  | RawHtml _ _ h => [h]
  end.

(** [s.includes(t)] *)
Fixpoint includes (t s : string) : bool :=
  String.prefix t s ||
  match s with
  | EmptyString => false
  | String _ s' => includes t s'
  end.

(** The classes of a [className] attribute. *)
Fixpoint classList_aux (cur : string) (s : string) : list string :=
  match s with
  | EmptyString => [String.rev cur]
  | String c s' =>
      if Ascii.eqb c Ascii.Space then String.rev cur :: classList_aux EmptyString s'
      else classList_aux (String c cur) s'
  end.

Definition classList (className : string) : list string :=
  filter (fun c => c ≠ EmptyString) (classList_aux EmptyString className).

(** ** components/FileTree.tsx *)

Module FileTree.

Record Props := { tree : string; title : string }.

Definition render (p : Props) : Node :=
  Elem "div" "rounded-lg overflow-hidden border border-[#3c3c3c] bg-[#1e1e1e]"
    [ Elem "div" "px-4 py-2 bg-[#2d2d2d] border-b border-[#3c3c3c]"
        [ Elem "span" "text-xs text-[#808080] font-mono" [Text (title p)] ];
      Elem "div" "px-4 py-3"
        [ Elem "pre"
            "text-sm font-mono text-[#d4d4d4] whitespace-pre overflow-x-auto leading-relaxed"
            [Text (tree p)] ] ].

End FileTree.

(** ** The highlighter (shiki), an external collaborator

    [codeToHtml(code, { lang, theme })] returns a promise; it settles
    either fulfilled with markup or rejected.  The function itself is a
    parameter of the development. *)

Module Shiki.

Record Options := { lang : string; theme : string }.

Inductive Settled :=
| Fulfilled (markup : string)
| Rejected.

Definition Highlighter := string → Options → Settled.

End Shiki.

(** ** components/CodeBlock.tsx *)

Module CodeBlock.

Record Props := { code : string; lang : string; title : option string }.

(** [const [html, setHtml] = useState<string>('')] *)
Definition initial_html : string := EmptyString.

(** The call made by the effect:
    [codeToHtml(code, { lang, theme: 'dark-plus' })]. *)
Definition call (p : Props) : string * Shiki.Options :=
  (code p, {| Shiki.lang := lang p; Shiki.theme := "dark-plus" |}).

(** The dependency array [[code, lang]]: the effect runs again when
    either differs from the previous render. *)
Definition deps_changed (old new : Props) : bool :=
  negb ((code old =? code new) && (lang old =? lang new)).

(** [.then(setHtml)]: a fulfilled promise stores its markup, a rejected
    one has no handler and leaves the state as it is. *)
Definition on_settled (r : Shiki.Settled) (html : string) : string :=
  match r with
  | Shiki.Fulfilled markup => markup
  | Shiki.Rejected => html
  end.

(** [{title && (...)}] renders the header for a non-empty title only. *)
Definition header (t : option string) : list Node :=
  match t with
  | None => []
  | Some EmptyString => []
  | Some t =>
      [ Elem "div" "px-4 py-2 bg-[#2d2d2d] border-b border-[#3c3c3c]"
          [ Elem "span" "text-xs text-[#808080] font-mono" [Text t] ] ]
  end.

Definition render (p : Props) (html : string) : Node :=
  Elem "div" "rounded-lg overflow-hidden border border-[#3c3c3c] bg-[#1e1e1e]"
    (header (title p) ++
     [ Elem "div" "overflow-x-auto"
         [ RawHtml "div"
             "[&>pre]:!bg-transparent [&>pre]:!m-0 [&>pre]:px-4 [&>pre]:py-3 [&>pre]:!leading-relaxed [&_code]:!block [&_code]:!text-[13px] [&_code]:font-mono"
             html ] ]).

End CodeBlock.

(** ** App.tsx: the content table *)

(** [type TabType = 'structure' | 'auth' | 'error' | 'middleware' | 'routing'] *)
Inductive TabType := structure | auth | error | middleware | routing.

(** The string a [TabType] value is at run time. *)
Definition TabType_key (t : TabType) : string :=
  match t with
  | structure => "structure"
  | auth => "auth"
  | error => "error"
  | middleware => "middleware"
  | routing => "routing"
  end.

Definition all_TabType : list TabType := [structure; auth; error; middleware; routing].

Record Comparison := { title : string; nextjs : string; hono : string }.

Definition comparisons : gmap string Comparison :=
  list_to_map
    [ ("structure",
       {| title := "File Structure";
          nextjs := "New endpoint = create new file in nested folder";
          hono := "New endpoint = add one line of code" |});
      ("auth",
       {| title := "Authentication Middleware";
          nextjs := "Import and call auth function in every route file";
          hono := "Define once as middleware, applies to all matched routes" |});
      ("error",
       {| title := "Error Handling";
          nextjs := "Per-route try/catch, inconsistent formats possible";
          hono := "Global error handler, consistent response format" |});
      ("middleware",
       {| title := "Middleware";
          nextjs := "Designed for pages, NOT suitable for API layer (official docs)";
          hono := "Perfect for API auth, logging, CORS, validation" |});
      ("routing",
       {| title := "Route Registration";
          nextjs := "File-based, implicit from folder structure";
          hono := "Programmatic, explicit with app.get/post/etc" |}) ].

(** [comparisons] is an object literal, so [comparisons[key]] also finds
    the members every object inherits from [Object.prototype]
    (ECMAScript, Annex B included).  Reading [.nextjs] or [.hono] off
    such a member gives [undefined]; reading it off [undefined], which
    is what any other missing key gives, is a TypeError. *)
Definition Object_prototype_keys : list string :=
  [ "constructor"; "hasOwnProperty"; "isPrototypeOf"; "propertyIsEnumerable";
    "toLocaleString"; "toString"; "valueOf"; "__proto__";
    "__defineGetter__"; "__defineSetter__"; "__lookupGetter__"; "__lookupSetter__" ].

Inductive Member :=
| entry (c : Comparison)
| prototype_member.

(** [comparisons[key]]; [None] is [undefined]. *)
Definition comparisons_get (key : string) : option Member :=
  match comparisons !! key with
  | Some c => Some (entry c)
  | None =>
      if bool_decide (key ∈ Object_prototype_keys) then Some prototype_member else None
  end.

(** [member.nextjs] and [member.hono]; [None] is [undefined]. *)
Definition member_nextjs (m : Member) : option string :=
  match m with
  | entry c => Some (nextjs c)
  | prototype_member => None
  end.

Definition member_hono (m : Member) : option string :=
  match m with
  | entry c => Some (hono c)
  | prototype_member => None
  end.

(** The text of [{value}] in JSX: [undefined] renders nothing. *)
Definition jsx_text (v : option string) : string := default EmptyString v.

Inductive BlockItem :=
| tree_block (tree title : string)
| code_block (code lang title : string).

Definition block_title (b : BlockItem) : string :=
  match b with
  | tree_block _ t => t
  | code_block _ _ t => t
  end.

Record Tab := { id : string; label : string }.

Definition tabs : list Tab :=
  [ {| id := "structure"; label := "File Structure" |};
    {| id := "routing"; label := "Route Registration" |};
    {| id := "auth"; label := "Auth Middleware" |};
    {| id := "error"; label := "Error Handling" |};
    {| id := "middleware"; label := "Middleware" |} ].

Import Content.

(** The [switch (activeTab)] of [getBlocks], its [default] included. *)
Definition getBlocks (activeTab : string) : list BlockItem :=
  if activeTab =? "structure" then
    [ tree_block nextjsFileTree "Next.js Route Handlers";
      tree_block honoFileTree "Hono Catch-All Handler" ]
  else if activeTab =? "routing" then
    [ code_block nextjsRoutingCode "typescript" "Next.js File-Based Routing";
      code_block honoRoutingCode "typescript" "Hono Programmatic Routing" ]
  else if activeTab =? "auth" then
    [ code_block nextjsAuthCode "typescript" "Next.js (Manual Per-Route)";
      code_block honoAuthCode "typescript" "Hono (Middleware Chain)" ]
  else if activeTab =? "error" then
    [ code_block nextjsErrorCode "typescript" "Next.js (Inconsistent)";
      code_block honoErrorCode "typescript" "Hono (Global Handler)" ]
  else if activeTab =? "middleware" then
    [ code_block nextjsMiddlewareCode "typescript" "Next.js Middleware";
      code_block honoMiddlewareCode "typescript" "Hono Middleware" ]
  else [].

(** The two blocks of the RPC section, the same in every render. *)
Definition rpcBlocks : list BlockItem :=
  [ code_block honoRpcServerCode "typescript" "Server (with type export)";
    code_block honoRpcClientCode "typescript" "Client (type-safe calls)" ].

(** ** App.tsx: the component tree and its state

    React keeps one instance per position and component type: a
    [CodeBlock] that stays at its position keeps its [html] state and
    receives new props; a position whose component type changes is
    unmounted and mounted afresh.  [FileTree] has no state. *)

(** A mounted [CodeBlock]: its identity, the props of its last render
    and its [html] state. *)
Record Instance := { inst : nat; props : CodeBlock.Props; html : string }.

Inductive Slot :=
| tree_slot (p : FileTree.Props)
| code_slot (c : Instance).

(** A pending promise [codeToHtml(...).then(setHtml)], where [setHtml]
    is the setter of the instance [target]. *)
Record Request := { target : nat; arg_code : string; arg_opts : Shiki.Options }.

Record Page := {
  activeTab : string;
  grid : list Slot;
  rpc : list Slot;
  pending : list Request;
  fresh : nat
}.

Definition block_props (c l t : string) : CodeBlock.Props :=
  {| CodeBlock.code := c; CodeBlock.lang := l; CodeBlock.title := Some t |}.

Definition request (i : nat) (p : CodeBlock.Props) : Request :=
  {| target := i; arg_code := fst (CodeBlock.call p); arg_opts := snd (CodeBlock.call p) |}.

(** One position of a rendered list: the element
    [block.type === 'tree' ? <FileTree .../> : <CodeBlock .../>]
    against what is mounted there, with the requests its effect issues. *)
Definition place (n : nat) (old : option Slot) (b : BlockItem) : Slot * list Request * nat :=
  match b with
  | tree_block t ti =>
      (tree_slot {| FileTree.tree := t; FileTree.title := ti |}, [], n)
  | code_block c l ti =>
      let p := block_props c l ti in
      match old with
      | Some (code_slot i) =>
          (code_slot {| inst := inst i; props := p; html := html i |},
           if CodeBlock.deps_changed (props i) p then [request (inst i) p] else [],
           n)
      | _ =>
          (code_slot {| inst := n; props := p; html := CodeBlock.initial_html |},
           [request n p],
           S n)
      end
  end.

(** [blocks.map((block, index) => ...)] with [key={index}]. *)
Fixpoint reconcile (n : nat) (old : list Slot) (bs : list BlockItem)
  : list Slot * list Request * nat :=
  match bs with
  | [] => ([], [], n)
  | b :: bs' =>
      let '(s, rq, n1) := place n (head old) b in
      let '(ss, rqs, n2) := reconcile n1 (tail old) bs' in
      (s :: ss, rq ++ rqs, n2)
  end.

(** A render of [App] with [activeTab = tab]; [None] is the TypeError of
    [comparisons[activeTab].nextjs] when [comparisons[activeTab]] is
    [undefined]. *)
Definition render_App (tab : string) (s : Page) : option Page :=
  match comparisons_get tab with
  | None => None
  | Some _ =>
      let '(g, rq1, n1) := reconcile (fresh s) (grid s) (getBlocks tab) in
      let '(r, rq2, n2) := reconcile n1 (rpc s) rpcBlocks in
      Some {| activeTab := tab; grid := g; rpc := r;
              pending := pending s ++ rq1 ++ rq2; fresh := n2 |}
  end.

(** [useState<TabType>('structure')] *)
Definition initial_tab : string := "structure".

Definition unmounted : Page :=
  {| activeTab := initial_tab; grid := []; rpc := []; pending := []; fresh := 0 |}.

(** The first render. *)
Definition mount : option Page := render_App initial_tab unmounted.

Inductive Event :=
| Click (button : nat)
| Settle (k : nat).

(** The handler of a settled promise reaches the instance [i] only. *)
Definition receive (i : nat) (r : Shiki.Settled) (c : Instance) : Instance :=
  if Nat.eqb (inst c) i
  then {| inst := inst c; props := props c;
          html := CodeBlock.on_settled r (html c) |}
  else c.

Definition store (i : nat) (r : Shiki.Settled) (sl : Slot) : Slot :=
  match sl with
  | code_slot c => code_slot (receive i r c)
  | tree_slot _ => sl
  end.

Section WithHighlighter.

Variable codeToHtml : Shiki.Highlighter.

(** The [k]-th pending promise settles; its handler runs on the
    instance that issued it, if that instance is still mounted. *)
Definition settle (k : nat) (s : Page) : Page :=
  match pending s !! k with
  | None => s
  | Some r =>
      let res := codeToHtml (arg_code r) (arg_opts r) in
      {| activeTab := activeTab s;
         grid := store (target r) res <$> grid s;
         rpc := store (target r) res <$> rpc s;
         pending := delete k (pending s);
         fresh := fresh s |}
  end.

(** [onClick={() => setActiveTab(tab.id)}] on the [button]-th tab. *)
Definition step (s : Page) (e : Event) : option Page :=
  match e with
  | Click b =>
      match tabs !! b with
      | None => Some s
      | Some t => render_App (id t) s
      end
  | Settle k => Some (settle k s)
  end.

Fixpoint run (s : Page) (es : list Event) : option Page :=
  match es with
  | [] => Some s
  | e :: es' =>
      match step s e with
      | None => None
      | Some s' => run s' es'
      end
  end.

Definition run_App (es : list Event) : option Page :=
  match mount with
  | None => None
  | Some s => run s es
  end.

End WithHighlighter.

(** What the "Detailed Comparison" and RPC sections show. *)
Record View := {
  buttons : list (string * bool);
  summary_nextjs : string;
  summary_hono : string;
  blocks : list Node;
  rpc_blocks : list Node
}.

Definition slot_node (sl : Slot) : Node :=
  match sl with
  | tree_slot p => FileTree.render p
  | code_slot c => CodeBlock.render (props c) (html c)
  end.

Definition view (s : Page) : option View :=
  match comparisons_get (activeTab s) with
  | None => None
  | Some c =>
      Some {| buttons := map (fun t => (label t, activeTab s =? id t)) tabs;
              summary_nextjs := jsx_text (member_nextjs c);
              summary_hono := jsx_text (member_hono c);
              blocks := map slot_node (grid s);
              rpc_blocks := map slot_node (rpc s) |}
  end.

(** The block a slot was rendered from. *)
Definition slot_block (sl : Slot) : BlockItem :=
  match sl with
  | tree_slot p => tree_block (FileTree.tree p) (FileTree.title p)
  | code_slot c =>
      code_block (CodeBlock.code (props c)) (CodeBlock.lang (props c))
                 (default EmptyString (CodeBlock.title (props c)))
  end.

(** A stand-in for the highlighter, used to run the page on concrete
    inputs: it knows a few grammars, wraps the text in [pre] and [code]
    and rejects every other language. *)
Definition demo_langs : list string := ["typescript"; "javascript"; "text"].

Definition demo_highlighter : Shiki.Highlighter := fun code o =>
  if existsb (String.eqb (Shiki.lang o)) demo_langs
  then Shiki.Fulfilled ("<pre class='shiki " +:+ Shiki.theme o +:+ "'><code>" +:+ code +:+ "</code></pre>")
  else Shiki.Rejected.

(** The topic whose table entry has the given summary texts, and the
    topic whose blocks are the given ones. *)
Definition BlockItem_eqb (a b : BlockItem) : bool :=
  match a, b with
  | tree_block t1 ti1, tree_block t2 ti2 => (t1 =? t2) && (ti1 =? ti2)
  | code_block c1 l1 ti1, code_block c2 l2 ti2 => (c1 =? c2) && (l1 =? l2) && (ti1 =? ti2)
  | _, _ => false
  end.

Fixpoint blocks_eqb (a b : list BlockItem) : bool :=
  match a, b with
  | [], [] => true
  | x :: a', y :: b' => BlockItem_eqb x y && blocks_eqb a' b'
  | _, _ => false
  end.

Definition topics_of_summary (n h : string) : list TabType :=
  filter (fun t => match comparisons !! TabType_key t with
                   | Some c => (nextjs c =? n) && (hono c =? h)
                   | None => false
                   end = true) all_TabType.

Definition topics_of_blocks (bs : list BlockItem) : list TabType :=
  filter (fun t => blocks_eqb (getBlocks (TabType_key t)) bs = true) all_TabType.

(** ** Notions used to state the properties *)

(** The mounted [CodeBlock] instances of a list of slots. *)
Definition codes (l : list Slot) : list Instance :=
  omap (fun sl => match sl with code_slot c => Some c | tree_slot _ => None end) l.

Definition ids (l : list Slot) : list nat := map inst (codes l).

(** The pending requests whose handler belongs to instance [i]. *)
Definition requests_of (i : nat) (q : list Request) : list Request :=
  filter (fun r => target r = i) q.

(** An instance shows the markup of its own props (whenever the
    highlighter has markup for them). *)
Definition shows (hl : Shiki.Highlighter) (c : Instance) : Prop :=
  match hl (fst (CodeBlock.call (props c))) (snd (CodeBlock.call (props c))) with
  | Shiki.Fulfilled m => html c = m
  | Shiki.Rejected => True
  end.

(** Either the newest pending request of an instance is the one for its
    current props, or nothing is pending and it shows their markup. *)
Definition up_to_date (hl : Shiki.Highlighter) (q : list Request) (c : Instance) : Prop :=
  match last (requests_of (inst c) q) with
  | Some r => r = request (inst c) (props c)
  | None => shows hl c
  end.

(** Promises settle in the order in which they were issued. *)
Definition in_issue_order (es : list Event) : bool :=
  forallb (fun e => match e with Settle k => Nat.eqb k 0 | Click _ => true end) es.

(** A [CodeBlock] mounted with props [p], once its first call has settled. *)
Definition shown_after_mount (hl : Shiki.Highlighter) (p : CodeBlock.Props) : Node :=
  CodeBlock.render p
    (CodeBlock.on_settled
       (hl (fst (CodeBlock.call p)) (snd (CodeBlock.call p)))
       CodeBlock.initial_html).

(** What holds of the instances and the queue in every state of a run
    whose promises settle in issue order: instance ids are distinct and
    below the counter, and every mounted instance is up to date. *)
Definition consistent (hl : Shiki.Highlighter) (s : Page) : Prop :=
  NoDup (ids (grid s ++ rpc s)) ∧
  Forall (fun i => i < fresh s) (ids (grid s ++ rpc s)) ∧
  Forall (up_to_date hl (pending s)) (codes (grid s ++ rpc s)).

(** The output of a block contains the original text. *)
Definition contains_text (p : CodeBlock.Props) (out : Node) : Prop :=
  ∃ m, m ∈ textContent out :: rawMarkup out ∧ includes (CodeBlock.code p) m = true.

(** The markup the highlighter has for a code block. *)
Definition markup_of (hl : Shiki.Highlighter) (b : BlockItem) : option string :=
  match b with
  | code_block c l _ =>
      match hl c {| Shiki.lang := l; Shiki.theme := "dark-plus" |} with
      | Shiki.Fulfilled m => Some m
      | Shiki.Rejected => None
      end
  | tree_block _ _ => None
  end.

(** The markup the mounted code blocks of the grid show. *)
Definition shown_markup (s : Page) : list string := map html (codes (grid s)).

(** Three quick selections (routing, auth, error), then the eight
    pending promises settle: newest first, or in issue order. *)
Definition three_clicks : list Event := [Click 1; Click 2; Click 3].

Definition newest_first : list Event :=
  three_clicks ++ map Settle [7; 6; 5; 4; 3; 2; 1; 0].

Definition oldest_first : list Event :=
  three_clicks ++ map Settle [0; 0; 0; 0; 0; 0; 0; 0].

Definition page_after (es : list Event) : Page :=
  default unmounted (run_App demo_highlighter es).

(** A page holding one block in an unknown language, its call pending. *)
Definition unknown_lang_props : CodeBlock.Props :=
  {| CodeBlock.code := "const x = 1";
     CodeBlock.lang := "unsupported-language-xyz";
     CodeBlock.title := None |}.

Definition unknown_lang_page : Page :=
  {| activeTab := initial_tab;
     grid := [code_slot {| inst := 0; props := unknown_lang_props;
                           html := CodeBlock.initial_html |}];
     rpc := [];
     pending := [request 0 unknown_lang_props];
     fresh := 1 |}.

(** The active tab is a topic and the mounted blocks are that topic's. *)
Definition on_topic (t : TabType) (s : Page) : Prop :=
  activeTab s = TabType_key t ∧
  map slot_block (grid s) = getBlocks (TabType_key t) ∧
  map slot_block (rpc s) = rpcBlocks.

(** The markup of the stand-in highlighter for a text. *)
Definition demo_markup (code : string) : string :=
  "<pre class='shiki dark-plus'><code>" +:+ code +:+ "</code></pre>".

(** The left block of the grid once "error" is selected and highlighted. *)
Definition error_block_shown : Instance :=
  {| inst := 2;
     props := block_props nextjsErrorCode "typescript" "Next.js (Inconsistent)";
     html := demo_markup nextjsErrorCode |}.

(** ** The tab bar of App.tsx *)

(** The [className] template literal of a tab button. *)
Definition tab_className (active : bool) : string :=
  "px-3 py-1.5 rounded-md text-xs font-mono transition-colors cursor-pointer " +:+
  (if active then "bg-[#4ec9b0] text-[#1e1e1e]"
   else "bg-[#252526] text-[#808080] hover:text-[#d4d4d4] border border-[#3c3c3c]").

(** [<button key={tab.id} onClick={...} className={...}>{tab.label}</button>] *)
Definition tab_button (activeTab : string) (tab : Tab) : Node :=
  Elem "button" (tab_className (activeTab =? id tab)) [Text (label tab)].

(** [tabs.map((tab) => ...)] *)
Definition tab_bar (activeTab : string) : list Node :=
  map (tab_button activeTab) tabs.

(** A button drawn in the accent colour of the active tab. *)
Definition is_active (n : Node) : bool :=
  match n with
  | Elem _ cls _ => bool_decide ("bg-[#4ec9b0]" ∈ classList cls)
  | _ => false
  end.

(** What one event does to the selection: a click on a tab selects its
    id, nothing else touches it. *)
Definition select (tab : string) (e : Event) : string :=
  match e with
  | Click b =>
      match tabs !! b with
      | Some t => id t
      | None => tab
      end
  | Settle _ => tab
  end.

Definition last_selected (es : list Event) : string :=
  fold_left select es initial_tab.

(** The code texts of the content table: those of the four code topics
    and of the RPC section. *)
Definition code_of (b : BlockItem) : option string :=
  match b with
  | code_block c _ _ => Some c
  | tree_block _ _ => None
  end.

Definition code_texts : list string :=
  omap code_of (flat_map (fun t => getBlocks (TabType_key t)) all_TabType ++ rpcBlocks).

(** A call the page may make: one of its code texts, as TypeScript, in
    the dark-plus theme. *)
Definition page_call (r : Request) : Prop :=
  arg_code r ∈ code_texts ∧
  arg_opts r = {| Shiki.lang := "typescript"; Shiki.theme := "dark-plus" |}.

(** The props of the two blocks of the RPC section. *)
Definition rpc_props (i : nat) : CodeBlock.Props :=
  match i with
  | 0 => block_props honoRpcServerCode "typescript" "Server (with type export)"
  | _ => block_props honoRpcClientCode "typescript" "Client (type-safe calls)"
  end.

(** An instance shows nothing yet, or the markup of its own props. *)
Definition empty_or_own (hl : Shiki.Highlighter) (c : Instance) : Prop :=
  html c = EmptyString ∨
  hl (fst (CodeBlock.call (props c))) (snd (CodeBlock.call (props c)))
    = Shiki.Fulfilled (html c).

(** What holds of the RPC section in every state of a run: its two
    blocks are the instances 0 and 1 with their fixed props, every
    pending request of theirs is the one of their mount, and everything
    else on the page has an id from 2 on. *)
Definition rpc_settled (hl : Shiki.Highlighter) (s : Page) : Prop :=
  (∃ h0 h1,
     rpc s = [ code_slot {| inst := 0; props := rpc_props 0; html := h0 |};
               code_slot {| inst := 1; props := rpc_props 1; html := h1 |} ] ∧
     empty_or_own hl {| inst := 0; props := rpc_props 0; html := h0 |} ∧
     empty_or_own hl {| inst := 1; props := rpc_props 1; html := h1 |}) ∧
  Forall (fun r => target r < 2 → r = request (target r) (rpc_props (target r))) (pending s) ∧
  Forall (fun i => 2 ≤ i)%nat (ids (grid s)) ∧
  (2 ≤ fresh s)%nat.

(** Ids are handed out below the counter, to instances and requests alike. *)
Definition below_fresh (s : Page) : Prop :=
  Forall (fun i => i < fresh s) (ids (grid s ++ rpc s)) ∧
  Forall (fun r => target r < fresh s) (pending s).

(** The requests for the current props of the grid's code blocks. *)
Definition grid_requests (s : Page) : list Request :=
  map (fun c => request (inst c) (props c)) (codes (grid s)).

(** The left block of the grid right after moving from "routing",
    highlighted, to "auth": the auth props over the routing markup. *)
Definition routing_highlighted : list Event := [Click 1; Settle 2].

Definition auth_block_unsettled : Instance :=
  {| inst := 2;
     props := block_props nextjsAuthCode "typescript" "Next.js (Manual Per-Route)";
     html := demo_markup nextjsRoutingCode |}.





(** Another way to the settled "error" page: through "routing" and
    File Structure, so that the grid's blocks are mounted a second time. *)
Definition remount_then_error : list Event :=
  [Click 1; Click 0; Click 3] ++ map Settle [0; 0; 0; 0; 0; 0].

Definition error_block_remounted : Instance :=
  {| inst := 4;
     props := block_props nextjsErrorCode "typescript" "Next.js (Inconsistent)";
     html := demo_markup nextjsErrorCode |}.

(** * Properties *)

(** ** The content table *)

Lemma comparisons_key (t : TabType) : is_Some (comparisons !! TabType_key t).
Proof. destruct t; vm_compute; eauto. Qed.

Lemma comparisons_get_key (t : TabType) :
  ∃ c, comparisons !! TabType_key t = Some c ∧
       comparisons_get (TabType_key t) = Some (entry c).
Proof.
  destruct (comparisons_key t) as [c Hc]. exists c. split; [done|].
  unfold comparisons_get. by rewrite Hc.
Qed.

Lemma tabs_are_topics (b : nat) (t : Tab) :
  tabs !! b = Some t → ∃ k, id t = TabType_key k.
Proof.
  intros H.
  do 5 (destruct b as [|b]; [injection H as <-; first
    [ by exists structure | by exists routing | by exists auth
    | by exists error | by exists middleware ] |]).
  discriminate H.
Qed.

(** C3: for every topic of the closed enumeration the lookup in
    [comparisons] finds an entry and [getBlocks] returns exactly two
    blocks; neither lookup can fail on a topic. *)
Theorem lookups_total_on_topics (t : TabType) :
  (∃ c : Comparison, comparisons !! TabType_key t = Some c) ∧
  (∃ l r : BlockItem, getBlocks (TabType_key t) = [l; r]).
Proof.
  split.
  - apply comparisons_key.
  - destruct t; vm_compute; eauto.
Qed.

(** ** Rendering a list of blocks *)

Lemma place_block n old b s rq n' :
  place n old b = (s, rq, n') → slot_block s = b.
Proof.
  destruct b as [t ti|c l ti]; cbn.
  - by intros [= <- _ _].
  - destruct old as [[p|i]|]; by intros [= <- _ _].
Qed.

Lemma reconcile_blocks bs : ∀ n old ss rq n',
  reconcile n old bs = (ss, rq, n') → map slot_block ss = bs.
Proof.
  induction bs as [|b bs IH]; intros n old ss rq n'; cbn.
  - by intros [= <- _ _].
  - destruct (place n (head old) b) as [[s rq0] n1] eqn:Hp.
    destruct (reconcile n1 (tail old) bs) as [[ss' rqs] n2] eqn:Hr.
    intros [= <- _ _]. cbn. f_equal; eauto using place_block.
Qed.

Lemma deps_unchanged p : CodeBlock.deps_changed p p = false.
Proof. unfold CodeBlock.deps_changed. by rewrite !String.eqb_refl. Qed.

(** Rendering the same blocks again changes nothing and issues no request. *)
Lemma place_again n old b s rq n' :
  place n old b = (s, rq, n') → ∀ m, place m (Some s) b = (s, [], m).
Proof.
  destruct b as [t ti|c l ti]; cbn.
  - by intros [= <- _ _].
  - destruct old as [[p|i]|]; intros [= <- _ _] m; cbn; by rewrite deps_unchanged.
Qed.

Lemma reconcile_again bs : ∀ n old ss rq n',
  reconcile n old bs = (ss, rq, n') → ∀ m, reconcile m ss bs = (ss, [], m).
Proof.
  induction bs as [|b bs IH]; intros n old ss rq n'; cbn.
  - by intros [= <- _ _].
  - destruct (place n (head old) b) as [[s rq0] n1] eqn:Hp.
    destruct (reconcile n1 (tail old) bs) as [[ss' rqs] n2] eqn:Hr.
    intros [= <- _ _] m. cbn.
    rewrite (place_again _ _ _ _ _ _ Hp m), (IH _ _ _ _ _ Hr m). done.
Qed.

Lemma render_App_topic (t : TabType) (s : Page) :
  ∃ s', render_App (TabType_key t) s = Some s' ∧
        activeTab s' = TabType_key t ∧
        map slot_block (grid s') = getBlocks (TabType_key t) ∧
        map slot_block (rpc s') = rpcBlocks.
Proof.
  unfold render_App. destruct (comparisons_get_key t) as (c & _ & ->).
  destruct (reconcile (fresh s) (grid s) _) as [[g rq1] n1] eqn:Hg.
  destruct (reconcile n1 (rpc s) rpcBlocks) as [[r rq2] n2] eqn:Hr.
  eexists; split; [done|]. cbn. eauto using reconcile_blocks.
Qed.

Lemma render_App_again tab s s' :
  render_App tab s = Some s' → render_App tab s' = Some s'.
Proof.
  unfold render_App. destruct (comparisons_get tab) as [c|]; [|done].
  destruct (reconcile (fresh s) (grid s) _) as [[g rq1] n1] eqn:Hg.
  destruct (reconcile n1 (rpc s) rpcBlocks) as [[r rq2] n2] eqn:Hr.
  intros [= <-]. cbn [grid rpc pending fresh].
  rewrite (reconcile_again _ _ _ _ _ _ Hg n2), (reconcile_again _ _ _ _ _ _ Hr n2).
  by rewrite !app_nil_r.
Qed.

(** ** Runs of the page *)

Lemma store_block i r sl : slot_block (store i r sl) = slot_block sl.
Proof. destruct sl as [p|c]; cbn; [done|]. unfold receive. by destruct (Nat.eqb _ _). Qed.

Lemma settle_on_topic hl k s t : on_topic t s → on_topic t (settle hl k s).
Proof.
  unfold settle, on_topic. destruct (pending s !! k) as [r|]; [|done]. cbn.
  intros (? & Hg & Hr). split; [done|].
  rewrite <- Hg, <- Hr, <- !list_fmap_compose.
  split; apply list_fmap_ext; intros; apply store_block.
Qed.

Lemma step_on_topic hl s e t :
  on_topic t s →
  ∃ s' t', step hl s e = Some s' ∧ on_topic t' s' ∧
    (activeTab s' = activeTab s ∨
     ∃ b tab, e = Click b ∧ tabs !! b = Some tab ∧ activeTab s' = id tab).
Proof.
  intros Ht. destruct e as [b|k]; cbn.
  - destruct (tabs !! b) as [tab|] eqn:Hb; [|by eauto 6].
    destruct (tabs_are_topics _ _ Hb) as [t' Ht'].
    destruct (render_App_topic t' s) as (s' & Hs' & Ha & Hg).
    rewrite Ht'. exists s', t'. split; [done|]. split; [done|].
    right. exists b, tab. by rewrite Ha, Ht'.
  - exists (settle hl k s), t. split; [done|].
    split; [by apply settle_on_topic|]. left.
    unfold settle. by destruct (pending s !! k).
Qed.

Lemma run_on_topic hl es : ∀ s t,
  on_topic t s → ∃ s' t', run hl s es = Some s' ∧ on_topic t' s'.
Proof.
  induction es as [|e es IH]; intros s t Ht; cbn; [by eauto|].
  destruct (step_on_topic hl s e t Ht) as (s1 & t1 & -> & Ht1 & _). eauto.
Qed.

Lemma mount_on_topic : ∃ s, mount = Some s ∧ on_topic structure s.
Proof.
  destruct (render_App_topic structure unmounted) as (s & Hs & Ht). by exists s.
Qed.

Lemma run_App_on_topic hl es : ∃ s t, run_App hl es = Some s ∧ on_topic t s.
Proof.
  unfold run_App. destruct mount_on_topic as (s0 & -> & H0).
  eapply run_on_topic, H0.
Qed.


(** C9: every value of [TabType] hits one of the five explicit cases of
    the switch, so [getBlocks] is never empty on a topic; a string
    reaches the [default] branch only when it is no topic at all, and no
    run of the page gets there. *)
Theorem getBlocks_default_unreachable (hl : Shiki.Highlighter) (es : list Event)
    (t : TabType) (tab : string) :
  (∃ b bs, getBlocks (TabType_key t) = b :: bs) ∧
  (getBlocks tab = [] ∨ ∃ k, tab = TabType_key k) ∧
  (∃ s b bs, run_App hl es = Some s ∧ getBlocks (activeTab s) = b :: bs).
Proof.
  assert (∀ k, ∃ b bs, getBlocks (TabType_key k) = b :: bs) as Hne.
  { intros k. destruct k; vm_compute; eauto. }
  split; [apply Hne|]. split.
  - unfold getBlocks.
    destruct (tab =? "structure") eqn:E1;
      [right; exists structure; by apply String.eqb_eq|].
    destruct (tab =? "routing") eqn:E2;
      [right; exists routing; by apply String.eqb_eq|].
    destruct (tab =? "auth") eqn:E3;
      [right; exists auth; by apply String.eqb_eq|].
    destruct (tab =? "error") eqn:E4;
      [right; exists error; by apply String.eqb_eq|].
    destruct (tab =? "middleware") eqn:E5;
      [right; exists middleware; by apply String.eqb_eq|].
    by left.
  - destruct (run_App_on_topic hl es) as (s & k & Hs & Hk & _).
    destruct (Hne k) as (b & bs & Hb). exists s, b, bs. by rewrite Hk.
Qed.

(** C5: the active tab starts as ["structure"], the first topic of the
    enumeration and of the tab bar; in every state the page can reach it
    is a topic; and an event changes it only when the event is a click
    on a tab, to that tab's id. *)
Theorem activeTab_initial_and_mutation (hl : Shiki.Highlighter)
    (es : list Event) (e : Event) :
  activeTab <$> mount = Some (TabType_key structure) ∧
  head all_TabType = Some structure ∧
  id <$> head tabs = Some (TabType_key structure) ∧
  ∃ s s', run_App hl es = Some s ∧ step hl s e = Some s' ∧
    (∃ t, activeTab s = TabType_key t) ∧
    (∃ t', activeTab s' = TabType_key t') ∧
    (activeTab s' = activeTab s ∨
     ∃ b tab, e = Click b ∧ tabs !! b = Some tab ∧ activeTab s' = id tab).
Proof.
  split; [|split; [done|split; [done|]]].
  - destruct mount_on_topic as (s0 & -> & H0 & _). cbn. by rewrite H0.
  - destruct (run_App_on_topic hl es) as (s & t & Hs & Ht).
    destruct (step_on_topic hl s e t Ht) as (s' & t' & Hs' & Ht' & Hmut).
    exists s, s'. split; [done|]. split; [done|].
    split; [exists t; apply Ht|]. split; [exists t'; apply Ht'|done].
Qed.

(** C6: selecting a topic twice is the same as selecting it once: the
    second click on the topic's tab leaves the whole page state, and so
    everything displayed, as the first click made it. *)
Theorem selection_idempotent (hl : Shiki.Highlighter) (t : TabType) (s : Page) :
  ∃ b s1, id <$> tabs !! b = Some (TabType_key t) ∧
    step hl s (Click b) = Some s1 ∧
    step hl s1 (Click b) = Some s1 ∧
    activeTab s1 = TabType_key t ∧
    map slot_block (grid s1) = getBlocks (TabType_key t) ∧
    comparisons !! activeTab s1 = comparisons !! TabType_key t.
Proof.
  set (b := match t with structure => 0 | routing => 1 | auth => 2
                       | error => 3 | middleware => 4 end).
  assert (id <$> tabs !! b = Some (TabType_key t)) as Hb by by destruct t.
  destruct (render_App_topic t s) as (s1 & Hs1 & Ha & Hg & _).
  exists b, s1. split; [done|]. cbn.
  destruct (tabs !! b) as [tab|]; [|done]. injection Hb as ->.
  rewrite Hs1, (render_App_again _ _ _ Hs1), Ha. done.
Qed.

(** C10: in every state the page can reach, the summary texts and the
    blocks shown are both those of the one topic [activeTab] names: the
    texts are [comparisons[activeTab]], the mounted blocks are
    [getBlocks()], and each identifies that topic and no other. *)
Theorem summary_and_blocks_same_topic (hl : Shiki.Highlighter) (es : list Event) :
  ∃ s t c v,
    run_App hl es = Some s ∧
    activeTab s = TabType_key t ∧
    comparisons !! TabType_key t = Some c ∧
    view s = Some v ∧
    summary_nextjs v = nextjs c ∧
    summary_hono v = hono c ∧
    blocks v = map slot_node (grid s) ∧
    map slot_block (grid s) = getBlocks (TabType_key t) ∧
    topics_of_summary (summary_nextjs v) (summary_hono v) = [t] ∧
    topics_of_blocks (map slot_block (grid s)) = [t].
Proof.
  destruct (run_App_on_topic hl es) as (s & t & Hs & Ha & Hg & _).
  destruct (comparisons_get_key t) as (c & Hc & Hget).
  exists s, t, c. unfold view. rewrite Ha, Hget, Hg. eexists.
  do 4 (split; [done|]). cbn [summary_nextjs summary_hono blocks].
  do 4 (split; [done|]).
  clear -Hc. destruct t; vm_compute in Hc; injection Hc as <-; by vm_compute.
Qed.

(** C4: selecting "auth" (the third tab) shows two blocks, the left one
    with a title containing "Manual Per-Route" and the right one with a
    title containing "Middleware Chain"; selecting "structure" (the
    first tab) shows exactly two tree blocks, titled "Next.js Route
    Handlers" and "Hono Catch-All Handler", in that order.  This holds
    from every state. *)
Theorem auth_and_structure_blocks (hl : Shiki.Highlighter) (s : Page) :
  (∃ s' l r,
     step hl s (Click 2) = Some s' ∧ activeTab s' = "auth" ∧
     map slot_block (grid s') = [l; r] ∧
     includes "Manual Per-Route" (block_title l) = true ∧
     includes "Middleware Chain" (block_title r) = true) ∧
  (∃ s',
     step hl s (Click 0) = Some s' ∧ activeTab s' = "structure" ∧
     grid s' =
       [ tree_slot {| FileTree.tree := nextjsFileTree;
                      FileTree.title := "Next.js Route Handlers" |};
         tree_slot {| FileTree.tree := honoFileTree;
                      FileTree.title := "Hono Catch-All Handler" |} ]).
Proof.
  split.
  - destruct (render_App_topic auth s) as (s' & Hs' & Ha & Hg & _).
    exists s'. do 2 eexists. cbn [step]. change (tabs !! 2) with (Some {| id := "auth"; label := "Auth Middleware" |}).
    cbn [id]. split; [exact Hs'|]. split; [exact Ha|].
    split; [exact Hg|]. by vm_compute.
  - destruct (render_App_topic structure s) as (s' & Hs' & Ha & Hg & _).
    exists s'. split; [exact Hs'|]. split; [exact Ha|].
    destruct (grid s') as [|[p1|c1] [|[p2|c2] [|? ?]]]; try discriminate Hg.
    destruct p1, p2. by injection Hg as -> -> -> ->.
Qed.

(** ** FileTree *)

Lemma append_empty (s : string) : s +:+ EmptyString = s.
Proof. induction s as [|a s IH]; [done|]. change (String a (s +:+ EmptyString) = String a s). by rewrite IH. Qed.

(** C8: [FileTree] puts its [tree] string, unchanged, as the only
    content of a [pre] element whose class keeps whitespace
    ([whitespace-pre]); the text of the rendered component is the title
    followed by the tree, and rendering is a total function. *)
Theorem FileTree_verbatim (tree title : string) :
  let out := FileTree.render {| FileTree.tree := tree; FileTree.title := title |} in
  (∃ cls, byTag "pre" out = [Elem "pre" cls [Text tree]] ∧
          "whitespace-pre" ∈ classList cls) ∧
  textContent out = title +:+ tree ∧
  rawMarkup out = [].
Proof.
  cbn. split; [|split]; [| |done].
  - eexists. split; [reflexivity|]. apply (bool_decide_unpack _). by vm_compute.
  - by rewrite !append_empty.
Qed.

(** ** CodeBlock *)

Lemma rawMarkup_render p h : rawMarkup (CodeBlock.render p h) = [h].
Proof.
  unfold CodeBlock.render. cbn. rewrite flat_map_app. cbn.
  destruct (CodeBlock.title p) as [[|a t]|]; done.
Qed.

Lemma receive_rejected i c : receive i Shiki.Rejected c = c.
Proof. unfold receive. destruct (Nat.eqb _ _); [by destruct c|done]. Qed.

Lemma store_rejected i (l : list Slot) : store i Shiki.Rejected <$> l = l.
Proof.
  induction l as [|[p|c] l IH]; cbn; [done| |]; rewrite IH; [done|].
  by rewrite receive_rejected.
Qed.

(** C2, as the specification states it, fails: with a highlighter that
    rejects the unknown language, a block mounted with the text
    [const x = 1] shows empty markup and no text at all. *)
Lemma unsupported_language_shows_nothing :
  let p := unknown_lang_props in
  demo_highlighter (fst (CodeBlock.call p)) (snd (CodeBlock.call p)) = Shiki.Rejected ∧
  shown_after_mount demo_highlighter p = CodeBlock.render p EmptyString ∧
  ¬ contains_text p (shown_after_mount demo_highlighter p).
Proof.
  cbn zeta. split; [done|]. split; [done|].
  intros (m & Hm & Hin). vm_compute in Hm.
  apply list_elem_of_In in Hm. cbn in Hm.
  destruct Hm as [<-|[<-|[]]]; discriminate Hin.
Qed.

(** C2, amended: when the highlighter rejects a call, nothing fails and
    no error is shown, but there is no fallback either.  A block mounted
    with such props keeps the empty markup it started with, and on the
    page a rejected promise settles without changing any slot or
    anything displayed. *)
Theorem rejected_highlight_changes_nothing (hl : Shiki.Highlighter)
    (p : CodeBlock.Props) (s : Page) (k : nat) (r : Request) :
  hl (fst (CodeBlock.call p)) (snd (CodeBlock.call p)) = Shiki.Rejected →
  pending s !! k = Some r →
  hl (arg_code r) (arg_opts r) = Shiki.Rejected →
  shown_after_mount hl p = CodeBlock.render p EmptyString ∧
  rawMarkup (shown_after_mount hl p) = [EmptyString] ∧
  ∃ s', step hl s (Settle k) = Some s' ∧
        grid s' = grid s ∧ rpc s' = rpc s ∧ view s' = view s ∧
        pending s' = delete k (pending s).
Proof.
  intros Hp Hk Hr. unfold shown_after_mount. rewrite Hp. cbn [CodeBlock.on_settled].
  split; [done|]. split; [apply rawMarkup_render|].
  eexists. split; [done|]. unfold settle. rewrite Hk, Hr. cbn [grid rpc pending].
  rewrite !store_rejected. done.
Qed.

(** ** The queue of pending promises *)

Lemma codes_app a b : codes (a ++ b) = codes a ++ codes b.
Proof. apply omap_app. Qed.

Lemma ids_app a b : ids (a ++ b) = ids a ++ ids b.
Proof. unfold ids. by rewrite codes_app, map_app. Qed.

Lemma elem_of_ids c l : c ∈ codes l → inst c ∈ ids l.
Proof. intros H. unfold ids. apply list_elem_of_fmap. eauto. Qed.

Lemma requests_of_other i rq :
  Forall (fun r => target r ≠ i) rq → requests_of i rq = [].
Proof.
  unfold requests_of. induction 1 as [|r rq Hr _ IH]; [done|].
  by rewrite filter_cons_False.
Qed.

Lemma up_to_date_app_other hl q rq c :
  Forall (fun r => target r ≠ inst c) rq →
  up_to_date hl q c → up_to_date hl (q ++ rq) c.
Proof.
  intros H. unfold up_to_date, requests_of. rewrite filter_app.
  fold (requests_of (inst c) rq). by rewrite (requests_of_other _ _ H), app_nil_r.
Qed.

Lemma up_to_date_app_own hl q c :
  up_to_date hl (q ++ [request (inst c) (props c)]) c.
Proof.
  unfold up_to_date, requests_of. rewrite filter_app.
  rewrite (filter_cons_True _ (request _ _)) by done.
  rewrite filter_nil. by rewrite last_snoc.
Qed.

Lemma up_to_date_transfer hl q c0 c :
  inst c = inst c0 → html c = html c0 →
  CodeBlock.call (props c) = CodeBlock.call (props c0) →
  up_to_date hl q c0 → up_to_date hl q c.
Proof.
  unfold up_to_date, shows, request. by intros -> -> ->.
Qed.

Lemma place_cases n o b s rq n1 :
  place n o b = (s, rq, n1) →
  (∃ p, s = tree_slot p ∧ rq = [] ∧ n1 = n) ∨
  (∃ c0 c, o = Some (code_slot c0) ∧ s = code_slot c ∧ n1 = n ∧
     inst c = inst c0 ∧ html c = html c0 ∧
     (rq = [request (inst c) (props c)] ∨
      rq = [] ∧ CodeBlock.call (props c) = CodeBlock.call (props c0))) ∨
  (∃ c, s = code_slot c ∧ inst c = n ∧ n1 = S n ∧ rq = [request n (props c)]).
Proof.
  destruct b as [t ti|c l ti]; cbn.
  - intros [= <- <- <-]. left. eauto.
  - destruct o as [[p|c0]|].
    + intros [= <- <- <-]. right; right. eauto.
    + intros [= <- <- <-]. right; left. do 2 eexists.
      do 5 (split; [done|]). cbn [props inst].
      destruct (CodeBlock.deps_changed _ _) eqn:Hd; [by left|right].
      split; [done|]. unfold CodeBlock.deps_changed in Hd.
      apply negb_false_iff, andb_true_iff in Hd as [Hc Hl].
      apply String.eqb_eq in Hc, Hl. unfold CodeBlock.call.
      cbn [CodeBlock.code CodeBlock.lang block_props] in *. by rewrite Hc, Hl.
    + intros [= <- <- <-]. right; right. eauto.
Qed.

Lemma ids_head_tail old :
  ids old = match head old with Some (code_slot c) => [inst c] | _ => [] end ++ ids (tail old).
Proof. by destruct old as [|[p|c] os]. Qed.

Lemma codes_head_tail old :
  codes old = match head old with Some (code_slot c) => [c] | _ => [] end ++ codes (tail old).
Proof. by destruct old as [|[p|c] os]. Qed.

Lemma reconcile_consistent hl bs : ∀ n old ss rq n',
  reconcile n old bs = (ss, rq, n') →
  NoDup (ids old) → Forall (fun i => i < n) (ids old) →
  (n ≤ n')%nat ∧ NoDup (ids ss) ∧
  Forall (fun i => i ∈ ids old ∨ (n ≤ i < n')%nat) (ids ss) ∧
  Forall (fun r => target r ∈ ids ss) rq ∧
  ∀ q, Forall (up_to_date hl q) (codes old) →
       Forall (up_to_date hl (q ++ rq)) (codes ss).
Proof.
  induction bs as [|b bs IH]; intros n old ss rq n'; cbn [reconcile].
  { intros [= <- <- <-] _ _. repeat split; try constructor; done. }
  destruct (place n (head old) b) as [[s rq0] n1] eqn:Hp.
  destruct (reconcile n1 (tail old) bs) as [[ss' rqs] n2] eqn:Hr.
  intros [= <- <- <-] Hnd Hlt.
  rewrite ids_head_tail in Hnd, Hlt.
  apply NoDup_app in Hnd as (Hnd0 & Hdisj & Hnd').
  apply Forall_app in Hlt as [Hlt0 Hlt'].
  apply place_cases in Hp as
    [(p & -> & -> & ->)
    |[(c0 & c & Ho & -> & -> & Hi & Hh & Hrq)
     |(c & -> & Hi & -> & ->)]].
  - (* a FileTree *)
    destruct (IH _ _ _ _ _ Hr Hnd' Hlt') as (Hle & Hnd2 & Hsub & Htg & Hup).
    split; [done|]. split; [done|]. split; [|split; [done|]].
    + rewrite (ids_head_tail old). eapply Forall_impl; [exact Hsub|].
      cbn. intros i [?|?]; [left|by right]. apply elem_of_app. by right.
    + intros q Hq. rewrite codes_head_tail in Hq.
      apply Forall_app in Hq as [_ Hq]. cbn. by apply Hup.
  - (* a CodeBlock that stays mounted *)
    rewrite Ho in *. cbn in Hdisj, Hlt0.
    destruct (IH _ _ _ _ _ Hr Hnd' Hlt') as (Hle & Hnd2 & Hsub & Htg & Hup).
    assert (inst c ∉ ids ss') as Hfresh.
    { intros Hin. rewrite Forall_forall in Hsub.
      destruct (Hsub _ Hin) as [Hold|Hnew].
      - apply (Hdisj (inst c0)); [apply list_elem_of_here|by rewrite <- Hi].
      - apply Forall_inv in Hlt0. lia. }
    split; [done|]. split; [by constructor|]. split; [|split].
    + rewrite (ids_head_tail old), Ho. cbn. constructor.
      { left. rewrite Hi. apply list_elem_of_here. }
      eapply Forall_impl; [exact Hsub|]. cbn. intros i [?|?]; [left|by right].
      by apply list_elem_of_further.
    + apply Forall_app. split.
      * destruct Hrq as [->|[-> _]]; [|done]. repeat constructor.
      * eapply Forall_impl; [exact Htg|]. cbn. intros r ?. by apply list_elem_of_further.
    + intros q Hq. rewrite codes_head_tail, Ho in Hq.
      apply Forall_app in Hq as [Hq0 Hq]. apply Forall_inv in Hq0.
      assert (Forall (fun r => target r ≠ inst c) rqs) as Hrqs.
      { eapply Forall_impl; [exact Htg|]. cbn. intros r Hr' E. by rewrite E in Hr'. }
      assert (Forall (fun x => Forall (fun r => target r ≠ inst x) rq0) (codes (tail old))) as Hoth.
      { apply Forall_forall. intros x Hx.
        destruct Hrq as [->|[-> _]]; [|done]. repeat constructor. cbn.
        intros E. apply (Hdisj (inst c0)); [apply list_elem_of_here|].
        rewrite <- Hi, E. by apply elem_of_ids. }
      cbn. constructor.
      * rewrite app_assoc. apply up_to_date_app_other; [done|].
        destruct Hrq as [->|[-> Hcall]].
        -- apply up_to_date_app_own.
        -- rewrite app_nil_r. by eapply up_to_date_transfer.
      * rewrite app_assoc. apply Hup.
        rewrite Forall_forall in Hq. rewrite Forall_forall in Hoth.
        apply Forall_forall. intros x Hx.
        apply up_to_date_app_other; eauto.
  - (* a CodeBlock mounted afresh *)
    destruct (IH _ _ _ _ _ Hr Hnd') as (Hle & Hnd2 & Hsub & Htg & Hup).
    { eapply Forall_impl; [exact Hlt'|]. cbn. lia. }
    assert (inst c ∉ ids ss') as Hfresh.
    { intros Hin. rewrite Forall_forall in Hsub. rewrite Forall_forall in Hlt'.
      destruct (Hsub _ Hin) as [Hold|Hnew]; [|lia].
      specialize (Hlt' _ Hold). cbn in Hlt'. lia. }
    split; [lia|]. split; [by constructor|]. split; [|split].
    + cbn. constructor; [right; lia|].
      eapply Forall_impl; [exact Hsub|]. cbn. intros i [?|?]; [left|right; lia].
      rewrite (ids_head_tail old). apply elem_of_app. by right.
    + constructor; [cbn; rewrite Hi; apply list_elem_of_here|].
      eapply Forall_impl; [exact Htg|]. cbn. intros r ?. by apply list_elem_of_further.
    + intros q Hq. rewrite codes_head_tail in Hq.
      apply Forall_app in Hq as [_ Hq].
      assert (Forall (fun r => target r ≠ inst c) rqs) as Hrqs.
      { eapply Forall_impl; [exact Htg|]. cbn. intros r Hr' E. by rewrite E in Hr'. }
      cbn [codes omap]. change (codes (code_slot c :: ss')) with (c :: codes ss').
      constructor.
      * change (q ++ (request n (props c) :: rqs)) with (q ++ [request n (props c)] ++ rqs).
        rewrite app_assoc. apply up_to_date_app_other; [done|].
        rewrite <- Hi. apply up_to_date_app_own.
      * change (q ++ (request n (props c) :: rqs)) with (q ++ [request n (props c)] ++ rqs).
        rewrite app_assoc. apply Hup.
        rewrite Forall_forall in Hq. rewrite Forall_forall in Hlt'.
        apply Forall_forall. intros x Hx.
        apply up_to_date_app_other; [|by apply Hq].
        repeat constructor. cbn. intros E.
        specialize (Hlt' (inst x) (elem_of_ids _ _ Hx)). cbn in Hlt'. lia.
Qed.

Lemma render_App_consistent hl tab s s' :
  render_App tab s = Some s' → consistent hl s → consistent hl s'.
Proof.
  unfold render_App, consistent. destruct (comparisons_get tab) as [_c|]; [|done].
  destruct (reconcile (fresh s) (grid s) _) as [[g rq1] n1] eqn:Hg.
  destruct (reconcile n1 (rpc s) rpcBlocks) as [[r rq2] n2] eqn:Hr.
  intros [= <-]. cbn [grid rpc pending fresh].
  rewrite !ids_app, !codes_app. intros (Hnd & Hlt & Hup).
  apply NoDup_app in Hnd as (Hnd1 & Hdisj & Hnd2).
  apply Forall_app in Hlt as [Hlt1 Hlt2]. apply Forall_app in Hup as [Hup1 Hup2].
  destruct (reconcile_consistent hl _ _ _ _ _ _ Hg Hnd1 Hlt1)
    as (Hle1 & Hndg & Hsubg & Htg & Hupg).
  assert (Forall (fun i => i < n1) (ids (rpc s))) as Hlt2'.
  { eapply Forall_impl; [exact Hlt2|]. cbn. lia. }
  destruct (reconcile_consistent hl _ _ _ _ _ _ Hr Hnd2 Hlt2')
    as (Hle2 & Hndr & Hsubr & Htr & Hupr).
  rewrite Forall_forall in Hsubg. rewrite Forall_forall in Hsubr.
  rewrite Forall_forall in Hlt1. rewrite Forall_forall in Hlt2.
  assert (∀ i, i ∈ ids g → i ∉ ids r) as Hdisj'.
  { intros i Hi1 Hi2.
    destruct (Hsubg _ Hi1) as [Ho1|Hn1], (Hsubr _ Hi2) as [Ho2|Hn2].
    - by apply (Hdisj i).
    - specialize (Hlt1 _ Ho1). cbn in Hlt1. lia.
    - specialize (Hlt2 _ Ho2). cbn in Hlt2. lia.
    - lia. }
  split; [|split].
  - apply NoDup_app. done.
  - apply Forall_app. split; apply Forall_forall; intros i Hi.
    + destruct (Hsubg _ Hi) as [Ho|Hn]; [specialize (Hlt1 _ Ho); cbn in Hlt1|]; lia.
    + destruct (Hsubr _ Hi) as [Ho|Hn]; [specialize (Hlt2 _ Ho); cbn in Hlt2|]; lia.
  - rewrite Forall_forall in Htg. rewrite Forall_forall in Htr.
    apply Forall_app. split.
    + specialize (Hupg _ Hup1). rewrite Forall_forall in Hupg.
      apply Forall_forall. intros c Hc. rewrite app_assoc.
      apply up_to_date_app_other; [|by apply Hupg].
      apply Forall_forall. intros q Hq E.
      apply (Hdisj' (inst c)); [by apply elem_of_ids|]. rewrite <- E. by apply Htr.
    + rewrite app_assoc. apply Hupr.
      rewrite Forall_forall in Hup2. apply Forall_forall. intros c Hc.
      apply up_to_date_app_other; [|by apply Hup2].
      apply Forall_forall. intros q Hq E.
      specialize (Htg _ Hq). rewrite E in Htg.
      destruct (Hsubg _ Htg) as [Ho|Hn].
      * apply (Hdisj _ Ho). by apply elem_of_ids.
      * specialize (Hlt2 _ (elem_of_ids _ _ Hc)). cbn in Hlt2. lia.
Qed.

Lemma codes_store i r l : codes (store i r <$> l) = receive i r <$> codes l.
Proof. induction l as [|[p|c] l IH]; cbn; [done|done|]. by f_equal. Qed.

Lemma inst_receive i r c : inst (receive i r c) = inst c.
Proof. unfold receive. by destruct (Nat.eqb _ _). Qed.

Lemma ids_store i r l : ids (store i r <$> l) = ids l.
Proof.
  unfold ids. rewrite codes_store. unfold fmap. rewrite map_map.
  apply map_ext. intros c. apply inst_receive.
Qed.

(** The oldest pending promise settles. *)
Lemma receive_up_to_date hl r q c :
  up_to_date hl (r :: q) c →
  up_to_date hl q (receive (target r) (hl (arg_code r) (arg_opts r)) c).
Proof.
  unfold up_to_date, receive, requests_of.
  destruct (Nat.eqb_spec (inst c) (target r)) as [E|E].
  - rewrite filter_cons_True by done. cbn [inst props].
    destruct (filter _ q) as [|r' q'] eqn:Hf.
    2:{ simpl. destruct (last (r' :: q')) eqn:Hl; [done|].
        by apply last_None in Hl. }
    cbn. intros ->. unfold shows, request. cbn.
    by destruct (hl _ _).
  - rewrite filter_cons_False by done. done.
Qed.

Lemma settle_consistent hl s :
  consistent hl s → consistent hl (settle hl 0 s).
Proof.
  unfold settle. destruct (pending s) as [|r q] eqn:Hq; [done|].
  unfold consistent. rewrite Hq.
  cbn [lookup list_lookup grid rpc pending fresh delete list_delete].
  rewrite <- fmap_app, ids_store, codes_store. intros (Hnd & Hlt & Hup).
  split; [done|]. split; [done|].
  apply Forall_fmap. eapply Forall_impl; [exact Hup|]. cbn.
  intros c. apply receive_up_to_date.
Qed.

Lemma run_consistent hl es : ∀ s s',
  in_issue_order es = true → run hl s es = Some s' →
  consistent hl s → consistent hl s'.
Proof.
  induction es as [|e es IH]; intros s s' Hord; cbn.
  - by intros [= ->].
  - cbn in Hord. apply andb_true_iff in Hord as [He Hes].
    destruct e as [b|k]; cbn.
    + destruct (tabs !! b) as [tab|].
      * destruct (render_App (id tab) s) as [s1|] eqn:Hs1; [|done].
        intros Hrun Hc. eapply IH; eauto using render_App_consistent.
      * apply IH. done.
    + apply Nat.eqb_eq in He as ->. intros Hrun Hc.
      eapply IH; eauto using settle_consistent.
Qed.

Lemma unmounted_consistent hl : consistent hl unmounted.
Proof. repeat split; constructor. Qed.

Lemma run_App_consistent hl es s :
  in_issue_order es = true → run_App hl es = Some s → consistent hl s.
Proof.
  unfold run_App, mount. intros Hord.
  destruct (render_App initial_tab unmounted) as [s0|] eqn:H0; [|done].
  intros Hrun. eapply run_consistent; [exact Hord|exact Hrun|].
  eapply render_App_consistent; [exact H0|apply unmounted_consistent].
Qed.

(** C1, as the specification states it, fails: after selecting routing,
    auth and error in quick succession, let the eight pending promises
    settle newest first.  The page is on "error" and its blocks carry
    the error topic's code and titles, but the markup on display is the
    routing topic's, which settled last. *)
Lemma stale_highlight_overwrites_newer :
  ∃ s, run_App demo_highlighter newest_first = Some s ∧
       activeTab s = "error" ∧
       pending s = [] ∧
       map slot_block (grid s) = getBlocks "error" ∧
       shown_markup s = omap (markup_of demo_highlighter) (getBlocks "routing") ∧
       shown_markup s ≠ omap (markup_of demo_highlighter) (getBlocks "error").
Proof.
  eexists. split; [vm_compute; reflexivity|].
  do 4 (split; [by vm_compute|]).
  intros H. vm_compute in H. discriminate H.
Qed.

(** C1, amended: [CodeBlock] has no cancellation; what it guarantees is
    last-settled-wins.  When the promises settle in the order in which
    they were issued, then after any sequence of selections every code
    block of the grid with nothing left pending shows the markup of its
    current props, that is, of the topic selected last. *)
Theorem issue_order_last_write_wins (hl : Shiki.Highlighter) (es : list Event)
    (s : Page) (c : Instance) (m : string) :
  in_issue_order es = true →
  run_App hl es = Some s →
  c ∈ codes (grid s) →
  requests_of (inst c) (pending s) = [] →
  hl (fst (CodeBlock.call (props c))) (snd (CodeBlock.call (props c))) = Shiki.Fulfilled m →
  html c = m ∧
  rawMarkup (slot_node (code_slot c)) = [m] ∧
  ∃ t, activeTab s = TabType_key t ∧
       map slot_block (grid s) = getBlocks (TabType_key t) ∧
       slot_block (code_slot c) ∈ getBlocks (TabType_key t).
Proof.
  intros Hord Hrun Hc Hq Hm.
  destruct (run_App_consistent _ _ _ Hord Hrun) as (_ & _ & Hup).
  rewrite codes_app in Hup. apply Forall_app in Hup as [Hup _].
  rewrite Forall_forall in Hup. specialize (Hup _ Hc).
  unfold up_to_date in Hup. rewrite Hq in Hup. cbn in Hup.
  unfold shows in Hup. rewrite Hm in Hup.
  split; [done|]. split; [cbn [slot_node]; by rewrite rawMarkup_render, Hup|].
  destruct (run_App_on_topic hl es) as (s' & t & Hs' & Ha & Hg & _).
  rewrite Hrun in Hs'. injection Hs' as <-.
  exists t. split; [done|]. split; [done|].
  rewrite <- Hg. apply list_elem_of_fmap. exists (code_slot c). split; [done|].
  unfold codes in Hc. apply list_elem_of_omap in Hc as (sl & Hsl & Hsome).
  destruct sl as [p|c']; [done|]. by injection Hsome as ->.
Qed.

(** The amended C1 at work: the same three selections, the promises
    settling oldest first; the left block ends up with the error
    topic's markup. *)
Lemma issue_order_last_write_wins_witness :
  in_issue_order oldest_first = true ∧
  run_App demo_highlighter oldest_first = Some (page_after oldest_first) ∧
  error_block_shown ∈ codes (grid (page_after oldest_first)) ∧
  requests_of (inst error_block_shown) (pending (page_after oldest_first)) = [] ∧
  html error_block_shown = demo_markup nextjsErrorCode ∧
  rawMarkup (slot_node (code_slot error_block_shown)) = [demo_markup nextjsErrorCode].
Proof.
  assert (in_issue_order oldest_first = true) as H1 by reflexivity.
  assert (run_App demo_highlighter oldest_first = Some (page_after oldest_first)) as H2
    by (vm_compute; reflexivity).
  assert (error_block_shown ∈ codes (grid (page_after oldest_first))) as H3
    by (vm_compute; apply list_elem_of_here).
  assert (requests_of (inst error_block_shown) (pending (page_after oldest_first)) = []) as H4
    by (vm_compute; reflexivity).
  assert (demo_highlighter (fst (CodeBlock.call (props error_block_shown)))
            (snd (CodeBlock.call (props error_block_shown)))
          = Shiki.Fulfilled (demo_markup nextjsErrorCode)) as H5
    by (vm_compute; reflexivity).
  destruct (issue_order_last_write_wins demo_highlighter oldest_first
              (page_after oldest_first) error_block_shown
              (demo_markup nextjsErrorCode) H1 H2 H3 H4 H5) as (Hh & Hraw & _).
  split; [exact H1|]. split; [exact H2|]. split; [exact H3|].
  split; [exact H4|]. split; [exact Hh|exact Hraw].
Defined.

(** The amended C2 at work: a page with one block in an unknown
    language; its call is rejected and the page stays as it was. *)
Lemma rejected_highlight_changes_nothing_witness :
  demo_highlighter (fst (CodeBlock.call unknown_lang_props))
                   (snd (CodeBlock.call unknown_lang_props)) = Shiki.Rejected ∧
  pending unknown_lang_page !! 0 = Some (request 0 unknown_lang_props) ∧
  rawMarkup (shown_after_mount demo_highlighter unknown_lang_props) = [EmptyString] ∧
  ∃ s', step demo_highlighter unknown_lang_page (Settle 0) = Some s' ∧
        grid s' = grid unknown_lang_page ∧ pending s' = [].
Proof.
  assert (demo_highlighter (fst (CodeBlock.call unknown_lang_props))
            (snd (CodeBlock.call unknown_lang_props)) = Shiki.Rejected) as H1
    by reflexivity.
  assert (pending unknown_lang_page !! 0 = Some (request 0 unknown_lang_props)) as H2
    by reflexivity.
  destruct (rejected_highlight_changes_nothing demo_highlighter unknown_lang_props
              unknown_lang_page 0 (request 0 unknown_lang_props) H1 H2 H1)
    as (_ & Hraw & s' & Hs' & Hg & _ & _ & Hp).
  split; [exact H1|]. split; [exact H2|]. split; [exact Hraw|].
  exists s'. split; [exact Hs'|]. split; [exact Hg|exact Hp].
Defined.

(** C7, as the specification states it, fails for what a [CodeBlock]
    renders: the same three selections end on "error" with nothing
    pending, once with the promises settled newest first and once in
    issue order.  The left block has the same props in both pages, the
    highlighter is the same function, and the markup on display
    differs. *)
Lemma same_props_different_markup :
  ∃ s1 s2 c1 c2,
    run_App demo_highlighter newest_first = Some s1 ∧
    run_App demo_highlighter oldest_first = Some s2 ∧
    pending s1 = [] ∧ pending s2 = [] ∧
    codes (grid s1) !! 0 = Some c1 ∧
    codes (grid s2) !! 0 = Some c2 ∧
    props c1 = props c2 ∧
    rawMarkup (slot_node (code_slot c1)) ≠ rawMarkup (slot_node (code_slot c2)).
Proof.
  do 4 eexists.
  split; [vm_compute; reflexivity|]. split; [vm_compute; reflexivity|].
  split; [vm_compute; reflexivity|]. split; [vm_compute; reflexivity|].
  split; [vm_compute; reflexivity|]. split; [vm_compute; reflexivity|].
  split; [vm_compute; reflexivity|].
  intros H. vm_compute in H. discriminate H.
Qed.

(** C7, amended: the call a [CodeBlock] makes is fixed by its code and
    language (the theme is constant and the title is not passed), and
    when promises settle in the order in which they were issued the
    markup it displays is fixed by them too: any two code blocks, in any
    two runs of the page, with the same code and language, nothing
    pending and a call the highlighter fulfils, display byte-identical
    markup, whatever their titles, instances and histories. *)
Theorem markup_agrees_in_issue_order (hl : Shiki.Highlighter)
    (es1 es2 : list Event) (s1 s2 : Page) (c1 c2 : Instance) (m : string) :
  in_issue_order es1 = true →
  in_issue_order es2 = true →
  run_App hl es1 = Some s1 →
  run_App hl es2 = Some s2 →
  c1 ∈ codes (grid s1 ++ rpc s1) →
  c2 ∈ codes (grid s2 ++ rpc s2) →
  requests_of (inst c1) (pending s1) = [] →
  requests_of (inst c2) (pending s2) = [] →
  CodeBlock.code (props c1) = CodeBlock.code (props c2) →
  CodeBlock.lang (props c1) = CodeBlock.lang (props c2) →
  hl (fst (CodeBlock.call (props c1))) (snd (CodeBlock.call (props c1))) = Shiki.Fulfilled m →
  CodeBlock.call (props c1) = CodeBlock.call (props c2) ∧
  html c1 = html c2 ∧
  rawMarkup (slot_node (code_slot c1)) = rawMarkup (slot_node (code_slot c2)).
Proof.
  intros Ho1 Ho2 Hs1 Hs2 Hc1 Hc2 Hq1 Hq2 Hcode Hlang Hm.
  assert (CodeBlock.call (props c1) = CodeBlock.call (props c2)) as Hcall.
  { unfold CodeBlock.call. by rewrite Hcode, Hlang. }
  assert (∀ es s c, in_issue_order es = true → run_App hl es = Some s →
            c ∈ codes (grid s ++ rpc s) → requests_of (inst c) (pending s) = [] →
            shows hl c) as Hshows.
  { intros es s c Ho Hs Hc Hq.
    destruct (run_App_consistent _ _ _ Ho Hs) as (_ & _ & Hup).
    rewrite Forall_forall in Hup. specialize (Hup _ Hc).
    unfold up_to_date in Hup. by rewrite Hq in Hup. }
  pose proof (Hshows _ _ _ Ho1 Hs1 Hc1 Hq1) as H1.
  pose proof (Hshows _ _ _ Ho2 Hs2 Hc2 Hq2) as H2.
  unfold shows in H1, H2. rewrite <- Hcall in H2. rewrite Hm in H1, H2.
  assert (html c1 = html c2) as Hh by by rewrite H1, H2.
  split; [done|]. split; [done|].
  cbn [slot_node]. by rewrite !rawMarkup_render, Hh.
Qed.

(** The amended C7 at work: the settled "error" page reached directly
    and reached through File Structure; the left block is a different
    instance each time and shows the same markup. *)
Lemma markup_agrees_in_issue_order_witness :
  in_issue_order oldest_first = true ∧
  in_issue_order remount_then_error = true ∧
  run_App demo_highlighter oldest_first = Some (page_after oldest_first) ∧
  run_App demo_highlighter remount_then_error = Some (page_after remount_then_error) ∧
  error_block_shown ∈
    codes (grid (page_after oldest_first) ++ rpc (page_after oldest_first)) ∧
  error_block_remounted ∈
    codes (grid (page_after remount_then_error) ++ rpc (page_after remount_then_error)) ∧
  inst error_block_shown ≠ inst error_block_remounted ∧
  rawMarkup (slot_node (code_slot error_block_shown))
    = rawMarkup (slot_node (code_slot error_block_remounted)).
Proof.
  assert (in_issue_order oldest_first = true) as H1 by reflexivity.
  assert (in_issue_order remount_then_error = true) as H2 by reflexivity.
  assert (run_App demo_highlighter oldest_first = Some (page_after oldest_first)) as H3
    by (vm_compute; reflexivity).
  assert (run_App demo_highlighter remount_then_error
          = Some (page_after remount_then_error)) as H4
    by (vm_compute; reflexivity).
  assert (error_block_shown ∈
            codes (grid (page_after oldest_first) ++ rpc (page_after oldest_first))) as H5
    by (vm_compute; apply list_elem_of_here).
  assert (error_block_remounted ∈
            codes (grid (page_after remount_then_error)
                   ++ rpc (page_after remount_then_error))) as H6
    by (vm_compute; apply list_elem_of_here).
  assert (requests_of (inst error_block_shown) (pending (page_after oldest_first)) = []) as H7
    by (vm_compute; reflexivity).
  assert (requests_of (inst error_block_remounted)
            (pending (page_after remount_then_error)) = []) as H8
    by (vm_compute; reflexivity).
  assert (CodeBlock.code (props error_block_shown)
          = CodeBlock.code (props error_block_remounted)) as H9 by reflexivity.
  assert (CodeBlock.lang (props error_block_shown)
          = CodeBlock.lang (props error_block_remounted)) as H10 by reflexivity.
  assert (demo_highlighter (fst (CodeBlock.call (props error_block_shown)))
            (snd (CodeBlock.call (props error_block_shown)))
          = Shiki.Fulfilled (demo_markup nextjsErrorCode)) as H11
    by (vm_compute; reflexivity).
  destruct (markup_agrees_in_issue_order demo_highlighter oldest_first remount_then_error
              (page_after oldest_first) (page_after remount_then_error)
              error_block_shown error_block_remounted (demo_markup nextjsErrorCode)
              H1 H2 H3 H4 H5 H6 H7 H8 H9 H10 H11) as (_ & _ & Hraw).
  assert (inst error_block_shown ≠ inst error_block_remounted) as Hne
    by (cbn; discriminate).
  split; [exact H1|]. split; [exact H2|]. split; [exact H3|]. split; [exact H4|].
  split; [exact H5|]. split; [exact H6|]. split; [exact Hne|exact Hraw].
Defined.

(** * Further properties of the page *)

(** ** Selection and the tab bar *)

Lemma step_selects hl s e s' :
  step hl s e = Some s' → activeTab s' = select (activeTab s) e.
Proof.
  destruct e as [b|k]; cbn.
  - destruct (tabs !! b) as [tab|]; [|by intros [= <-]].
    unfold render_App. destruct (comparisons_get (id tab)); [|done].
    destruct (reconcile (fresh s) (grid s) _) as [[g rq1] n1].
    destruct (reconcile n1 (rpc s) rpcBlocks) as [[r rq2] n2].
    by intros [= <-].
  - intros [= <-]. unfold settle. by destruct (pending s !! k).
Qed.

Lemma run_selects hl es : ∀ s s',
  run hl s es = Some s' → activeTab s' = fold_left select es (activeTab s).
Proof.
  induction es as [|e es IH]; intros s s'; cbn.
  - by intros [= <-].
  - destruct (step hl s e) as [s1|] eqn:Hs1; [|done].
    intros Hrun. rewrite (IH _ _ Hrun). by rewrite (step_selects _ _ _ _ Hs1).
Qed.

(** X1: the topic on display is that of the last tab clicked: whatever the
    events and whatever the highlighter does, a run of the page succeeds
    and ends with [activeTab] equal to the id of the last click that hit
    a tab, or to ["structure"] when there was none. *)
Theorem last_click_wins (hl : Shiki.Highlighter) (es : list Event) :
  ∃ s, run_App hl es = Some s ∧ activeTab s = last_selected es.
Proof.
  destruct (run_App_on_topic hl es) as (s & t & Hs & _).
  exists s. split; [done|]. unfold run_App in Hs.
  destruct mount_on_topic as (s0 & H0 & Ha & _). rewrite H0 in Hs.
  rewrite (run_selects _ _ _ _ Hs). unfold last_selected. by rewrite Ha.
Qed.

(** X2: in every state the page can reach exactly one button of the tab bar
    is drawn as active: the one of the tab whose id is [activeTab], with
    that tab's label. *)
Theorem one_active_tab (hl : Shiki.Highlighter) (es : list Event) :
  ∃ s tab,
    run_App hl es = Some s ∧
    tab ∈ tabs ∧
    id tab = activeTab s ∧
    List.filter is_active (tab_bar (activeTab s)) = [tab_button (activeTab s) tab] ∧
    textContent (tab_button (activeTab s) tab) = label tab.
Proof.
  destruct (run_App_on_topic hl es) as (s & t & Hs & Ha & _).
  exists s. rewrite Ha.
  destruct t;
    [ exists {| id := "structure"; label := "File Structure" |}
    | exists {| id := "auth"; label := "Auth Middleware" |}
    | exists {| id := "error"; label := "Error Handling" |}
    | exists {| id := "middleware"; label := "Middleware" |}
    | exists {| id := "routing"; label := "Route Registration" |} ];
    (split; [exact Hs|]);
    (split; [unfold tabs; repeat first [apply list_elem_of_here | apply list_elem_of_further]|]);
    (split; [reflexivity|]);
    (split; [vm_compute; reflexivity|reflexivity]).
Qed.

Lemma not_a_topic (tab : string) :
  (∀ t, tab ≠ TabType_key t) →
  (tab =? "structure") = false ∧ (tab =? "routing") = false ∧
  (tab =? "auth") = false ∧ (tab =? "error") = false ∧
  (tab =? "middleware") = false.
Proof.
  intros H. repeat split; apply String.eqb_neq.
  - apply (H structure).
  - apply (H routing).
  - apply (H auth).
  - apply (H error).
  - apply (H middleware).
Qed.

(** X3: a value of [activeTab] outside the five topics has no entry of
    its own in [comparisons]; [getBlocks] falls to its [default] and no
    tab button is drawn as active.  What the render does then depends on
    the key.  For a name every object inherits from [Object.prototype]
    ([constructor], [toString], ...) the lookup finds that member, its
    [.nextjs] and [.hono] are [undefined], and the page renders with
    empty summaries and an empty grid.  For every other string the
    lookup is [undefined] and the render fails with a TypeError,
    whatever the state. *)
Theorem render_off_topic (tab : string) (s : Page) :
  (∀ t, tab ≠ TabType_key t) →
  comparisons !! tab = None ∧
  getBlocks tab = [] ∧
  List.filter is_active (tab_bar tab) = [] ∧
  if bool_decide (tab ∈ Object_prototype_keys)
  then ∃ s' v, render_App tab s = Some s' ∧
               activeTab s' = tab ∧ grid s' = [] ∧
               view s' = Some v ∧
               summary_nextjs v = EmptyString ∧ summary_hono v = EmptyString ∧
               blocks v = []
  else render_App tab s = None.
Proof.
  intros H. destruct (not_a_topic tab H) as (E1 & E2 & E3 & E4 & E5).
  assert (comparisons !! tab = None) as Hc.
  { unfold comparisons. apply not_elem_of_list_to_map_1. cbn.
    intros Hin. apply list_elem_of_In in Hin. cbn in Hin.
    destruct Hin as [<-|[<-|[<-|[<-|[<-|[]]]]]].
    - by apply (H structure).
    - by apply (H auth).
    - by apply (H error).
    - by apply (H middleware).
    - by apply (H routing). }
  assert (getBlocks tab = []) as Hg.
  { unfold getBlocks. by rewrite E1, E2, E3, E4, E5. }
  split; [done|]. split; [done|]. split.
  { unfold tab_bar, tab_button, tabs. cbn [map id label].
    rewrite E1, E2, E3, E4, E5. by vm_compute. }
  assert (comparisons_get tab =
          if bool_decide (tab ∈ Object_prototype_keys)
          then Some prototype_member else None) as Hget.
  { unfold comparisons_get. by rewrite Hc. }
  destruct (bool_decide (tab ∈ Object_prototype_keys)).
  - unfold render_App. rewrite Hget, Hg. cbn [reconcile].
    destruct (reconcile (fresh s) (rpc s) rpcBlocks) as [[r rq2] n2].
    do 2 eexists. split; [reflexivity|]. cbn [activeTab grid].
    split; [done|]. split; [done|].
    unfold view. cbn [activeTab]. rewrite Hget. split; [reflexivity|]. done.
  - unfold render_App. by rewrite Hget.
Qed.

(** ** What a re-render does to the markup on display *)

Lemma place_keeps_markup n o b c' rq n1 :
  place n o b = (code_slot c', rq, n1) →
  match o with
  | Some (code_slot c) => inst c' = inst c ∧ html c' = html c
  | _ => html c' = EmptyString
  end.
Proof.
  destruct b as [t ti|cd l ti]; cbn; [done|].
  destruct o as [[p|c]|]; by intros [= <- _ _].
Qed.

Lemma reconcile_keeps_markup bs : ∀ n old ss rq n' j c',
  reconcile n old bs = (ss, rq, n') →
  ss !! j = Some (code_slot c') →
  match old !! j with
  | Some (code_slot c) => inst c' = inst c ∧ html c' = html c
  | _ => html c' = EmptyString
  end.
Proof.
  induction bs as [|b bs IH]; intros n old ss rq n' j c'; cbn [reconcile].
  { by intros [= <- _ _]. }
  destruct (place n (head old) b) as [[s rq0] n1] eqn:Hp.
  destruct (reconcile n1 (tail old) bs) as [[ss' rqs] n2] eqn:Hr.
  intros [= <- _ _]. destruct j as [|j]; cbn.
  - intros [= ->]. apply place_keeps_markup in Hp. by destruct old.
  - intros Hj. specialize (IH _ _ _ _ _ _ _ Hr Hj). by destruct old.
Qed.

Lemma render_App_keeps_markup tab s s' j c' :
  render_App tab s = Some s' →
  grid s' !! j = Some (code_slot c') →
  match grid s !! j with
  | Some (code_slot c) => inst c' = inst c ∧ html c' = html c
  | _ => html c' = EmptyString
  end.
Proof.
  unfold render_App. destruct (comparisons_get tab); [|done].
  destruct (reconcile (fresh s) (grid s) _) as [[g rq1] n1] eqn:Hg.
  destruct (reconcile n1 (rpc s) rpcBlocks) as [[r rq2] n2] eqn:Hr.
  intros [= <-]. cbn [grid]. intros Hj.
  exact (reconcile_keeps_markup _ _ _ _ _ _ _ _ Hg Hj).
Qed.

(** X4: a re-render never clears or replaces markup by itself.  A code block
    that is rendered where a code block already was is the same instance
    and keeps showing the markup it had, although its code and title may
    have changed; a code block rendered where a file tree (or nothing)
    was starts with empty markup. *)
Theorem rerender_keeps_markup (tab : string) (s s' : Page) (j : nat) (c' : Instance) :
  render_App tab s = Some s' →
  grid s' !! j = Some (code_slot c') →
  match grid s !! j with
  | Some (code_slot c) => inst c' = inst c ∧ html c' = html c
  | _ => html c' = EmptyString
  end.
Proof.
  intros Hs' Hj. exact (render_App_keeps_markup tab s s' j c' Hs' Hj).
Qed.

(** ** What the page asks of the highlighter *)

Lemma request_call i c l ti :
  arg_code (request i (block_props c l ti)) = c ∧
  arg_opts (request i (block_props c l ti))
    = {| Shiki.lang := l; Shiki.theme := "dark-plus" |}.
Proof. done. Qed.

Lemma reconcile_calls bs : ∀ n old ss rq n',
  reconcile n old bs = (ss, rq, n') →
  Forall (fun r => ∃ c l ti, code_block c l ti ∈ bs ∧ arg_code r = c ∧
                   arg_opts r = {| Shiki.lang := l; Shiki.theme := "dark-plus" |}) rq.
Proof.
  induction bs as [|b bs IH]; intros n old ss rq n'; cbn [reconcile].
  { intros [= _ <- _]. constructor. }
  destruct (place n (head old) b) as [[s rq0] n1] eqn:Hp.
  destruct (reconcile n1 (tail old) bs) as [[ss' rqs] n2] eqn:Hr.
  intros [= _ <- _]. apply Forall_app. split.
  - destruct b as [t ti|c l ti]; cbn in Hp.
    + injection Hp as _ <- _. constructor.
    + assert (∀ i, ∃ c0 l0 ti0, code_block c0 l0 ti0 ∈ code_block c l ti :: bs ∧
                arg_code (request i (block_props c l ti)) = c0 ∧
                arg_opts (request i (block_props c l ti))
                  = {| Shiki.lang := l0; Shiki.theme := "dark-plus" |}) as Hreq.
      { intros i. exists c, l, ti. split; [apply list_elem_of_here|done]. }
      destruct (head old) as [[p|c0]|]; injection Hp as _ <- _.
      * by repeat constructor.
      * destruct (CodeBlock.deps_changed _ _); by repeat constructor.
      * by repeat constructor.
  - eapply Forall_impl; [exact (IH _ _ _ _ _ Hr)|]. cbn.
    intros r (c & l & ti & Hin & Hc & Ho). exists c, l, ti.
    split; [by apply list_elem_of_further|done].
Qed.

Lemma table_calls c l ti :
  (∃ t, code_block c l ti ∈ getBlocks (TabType_key t)) ∨ code_block c l ti ∈ rpcBlocks →
  c ∈ code_texts ∧ l = "typescript".
Proof.
  intros [[t Hin]|Hin]; [destruct t|];
    apply list_elem_of_In in Hin; cbn in Hin;
    destruct Hin as [Hin|[Hin|[]]]; try discriminate Hin;
    injection Hin as <- <- _; (split; [|reflexivity]);
    apply (bool_decide_unpack _); by vm_compute.
Qed.

Lemma render_App_calls tab s s' :
  render_App tab s = Some s' → (∃ t, tab = TabType_key t) →
  Forall page_call (pending s) → Forall page_call (pending s').
Proof.
  unfold render_App. destruct (comparisons_get tab) as [member|]; [|done].
  destruct (reconcile (fresh s) (grid s) _) as [[g rq1] n1] eqn:Hg.
  destruct (reconcile n1 (rpc s) rpcBlocks) as [[r rq2] n2] eqn:Hr.
  intros [= <-] [t ->] Hp. cbn [pending].
  apply Forall_app. split; [done|]. apply Forall_app. split.
  - eapply Forall_impl; [exact (reconcile_calls _ _ _ _ _ _ Hg)|]. cbn.
    intros q (c & l & ti & Hin & Hc & Ho).
    destruct (table_calls c l ti) as [Hcode ->]; [left; by exists t|].
    split; [by rewrite Hc|done].
  - eapply Forall_impl; [exact (reconcile_calls _ _ _ _ _ _ Hr)|]. cbn.
    intros q (c & l & ti & Hin & Hc & Ho).
    destruct (table_calls c l ti) as [Hcode ->]; [by right|].
    split; [by rewrite Hc|done].
Qed.

Lemma run_calls hl es : ∀ s s' t,
  run hl s es = Some s' → on_topic t s →
  Forall page_call (pending s) → Forall page_call (pending s').
Proof.
  induction es as [|e es IH]; intros s s' t; cbn.
  - by intros [= <-].
  - destruct (step hl s e) as [s1|] eqn:Hs1; [|done].
    intros Hrun Ht Hp.
    destruct (step_on_topic hl s e t Ht) as (s1' & t1 & Hs1' & Ht1 & _).
    rewrite Hs1 in Hs1'. injection Hs1' as <-.
    eapply IH; [exact Hrun|exact Ht1|].
    destruct e as [b|k]; cbn in Hs1.
    + destruct (tabs !! b) as [tab|] eqn:Hb; [|by injection Hs1 as <-].
      eapply render_App_calls; [exact Hs1| |exact Hp].
      by eapply tabs_are_topics.
    + injection Hs1 as <-. unfold settle.
      destruct (pending s !! k); [|done]. cbn. by apply Forall_delete.
Qed.

(** X5: the only calls the page ever makes to the highlighter are for its
    own ten code texts, as TypeScript, in the dark-plus theme: in every
    state of every run each pending call is of that kind.  The two file
    trees are never sent to the highlighter. *)
Theorem only_typescript_code_is_highlighted (hl : Shiki.Highlighter) (es : list Event) :
  ∃ s, run_App hl es = Some s ∧
       Forall page_call (pending s) ∧
       length code_texts = 10 ∧
       (nextjsFileTree ∉ code_texts) ∧
       (honoFileTree ∉ code_texts).
Proof.
  destruct (run_App_on_topic hl es) as (s & t & Hs & _).
  exists s. split; [done|]. split.
  - unfold run_App in Hs. destruct mount_on_topic as (s0 & H0 & Ht0).
    rewrite H0 in Hs. eapply run_calls; [exact Hs|exact Ht0|].
    unfold mount in H0. eapply render_App_calls; [exact H0|by exists structure|].
    constructor.
  - split; [reflexivity|].
    split; apply (bool_decide_unpack _); by vm_compute.
Qed.

(** ** Instance ids and the RPC section *)

Lemma reconcile_targets bs : ∀ n old ss rq n',
  reconcile n old bs = (ss, rq, n') →
  (n ≤ n')%nat ∧
  Forall (fun i => i ∈ ids old ∨ (n ≤ i < n')%nat) (ids ss) ∧
  Forall (fun r => target r ∈ ids ss) rq.
Proof.
  induction bs as [|b bs IH]; intros n old ss rq n'; cbn [reconcile].
  { intros [= <- <- <-]. repeat split; try constructor; done. }
  destruct (place n (head old) b) as [[s rq0] n1] eqn:Hp.
  destruct (reconcile n1 (tail old) bs) as [[ss' rqs] n2] eqn:Hr.
  intros [= <- <- <-].
  destruct (IH _ _ _ _ _ Hr) as (Hle & Hsub & Htg).
  assert (Forall (fun i => i ∈ ids old ∨ (n1 ≤ i < n2)%nat) (ids ss')) as Hsub'.
  { eapply Forall_impl; [exact Hsub|]. cbn. intros i [Hi|Hi]; [left|by right].
    rewrite (ids_head_tail old). apply elem_of_app. by right. }
  apply place_cases in Hp as
    [(p & -> & -> & ->)
    |[(c0 & c & Ho & -> & -> & Hi & Hh & Hrq)
     |(c & -> & Hi & -> & ->)]].
  - split; [done|]. split; [done|]. done.
  - split; [done|]. split; [|apply Forall_app; split].
    + change (ids (code_slot c :: ss')) with (inst c :: ids ss').
      constructor; [|done]. left. rewrite (ids_head_tail old), Ho, Hi.
      apply list_elem_of_here.
    + destruct Hrq as [->|[-> _]]; [|done]. repeat constructor.
    + eapply Forall_impl; [exact Htg|]. cbn. intros r ?. by apply list_elem_of_further.
  - split; [lia|]. split; [|constructor].
    + change (ids (code_slot c :: ss')) with (inst c :: ids ss').
      constructor; [right; lia|].
      eapply Forall_impl; [exact Hsub'|]. cbn. intros i [?|?]; [by left|right; lia].
    + cbn. rewrite Hi. apply list_elem_of_here.
    + eapply Forall_impl; [exact Htg|]. cbn. intros r ?. by apply list_elem_of_further.
Qed.

Lemma rpc_rerender n h0 h1 :
  reconcile n
    [ code_slot {| inst := 0; props := rpc_props 0; html := h0 |};
      code_slot {| inst := 1; props := rpc_props 1; html := h1 |} ]
    rpcBlocks
  = ([ code_slot {| inst := 0; props := rpc_props 0; html := h0 |};
       code_slot {| inst := 1; props := rpc_props 1; html := h1 |} ], [], n).
Proof. vm_compute. reflexivity. Qed.

Lemma render_App_rpc_settled hl tab s s' :
  render_App tab s = Some s' → rpc_settled hl s →
  rpc_settled hl s' ∧ rpc s' = rpc s.
Proof.
  unfold render_App, rpc_settled. destruct (comparisons_get tab) as [member|]; [|done].
  destruct (reconcile (fresh s) (grid s) _) as [[g rq1] n1] eqn:Hg.
  intros Hs' ((h0 & h1 & Hrpc & H0 & H1) & Hp & Hids & Hf).
  rewrite Hrpc, rpc_rerender in Hs'. injection Hs' as <-. cbn [grid rpc pending fresh].
  destruct (reconcile_targets _ _ _ _ _ _ Hg) as (Hle & Hsub & Htg).
  assert (Forall (fun i => 2 ≤ i)%nat (ids g)) as Hg2.
  { rewrite Forall_forall in Hids. apply Forall_forall. intros i Hi.
    rewrite Forall_forall in Hsub. destruct (Hsub _ Hi) as [Ho|Hn]; [by apply Hids|lia]. }
  split; [|done]. split; [by exists h0, h1|]. split; [|split; [done|lia]].
  rewrite app_nil_r. apply Forall_app. split; [done|].
  rewrite Forall_forall in Hg2. rewrite Forall_forall in Htg.
  apply Forall_forall. intros r Hr Hlt. specialize (Hg2 _ (Htg _ Hr)). lia.
Qed.

Lemma receive_empty_or_own hl i h r :
  (target r = i → r = request i (rpc_props i)) →
  empty_or_own hl {| inst := i; props := rpc_props i; html := h |} →
  ∃ h', receive (target r) (hl (arg_code r) (arg_opts r))
          {| inst := i; props := rpc_props i; html := h |}
        = {| inst := i; props := rpc_props i; html := h' |} ∧
        empty_or_own hl {| inst := i; props := rpc_props i; html := h' |}.
Proof.
  intros Hr Hh. unfold receive. cbn [inst props html].
  destruct (Nat.eqb_spec i (target r)) as [E|E]; [|by exists h].
  rewrite (Hr (eq_sym E)). cbn [arg_code arg_opts request].
  destruct (hl _ _) as [m|] eqn:Hm; cbn [CodeBlock.on_settled]; [|by exists h].
  exists m. split; [done|]. right. exact Hm.
Qed.

Lemma settle_rpc_settled hl k s : rpc_settled hl s → rpc_settled hl (settle hl k s).
Proof.
  unfold settle. destruct (pending s !! k) as [r|] eqn:Hk; [|done].
  intros ((h0 & h1 & Hrpc & H0 & H1) & Hp & Hids & Hf).
  assert (target r < 2 → r = request (target r) (rpc_props (target r))) as Hr.
  { rewrite Forall_forall in Hp. apply Hp. by eapply list_elem_of_lookup_2. }
  destruct (receive_empty_or_own hl 0 h0 r) as (h0' & E0 & H0'); [intros E; rewrite <- E; apply Hr; lia|done|].
  destruct (receive_empty_or_own hl 1 h1 r) as (h1' & E1 & H1'); [intros E; rewrite <- E; apply Hr; lia|done|].
  unfold rpc_settled. cbn [grid rpc pending fresh]. rewrite Hrpc, ids_store.
  split; [|split; [by apply Forall_delete|done]].
  exists h0', h1'. cbn [fmap list_fmap store]. by rewrite E0, E1.
Qed.

Lemma run_rpc_settled hl es : ∀ s s',
  run hl s es = Some s' → rpc_settled hl s → rpc_settled hl s'.
Proof.
  induction es as [|e es IH]; intros s s'; cbn.
  - by intros [= <-].
  - destruct (step hl s e) as [s1|] eqn:Hs1; [|done].
    intros Hrun Hs. eapply IH; [exact Hrun|].
    destruct e as [b|k]; cbn in Hs1.
    + destruct (tabs !! b) as [tab|]; [|by injection Hs1 as <-].
      by destruct (render_App_rpc_settled hl _ _ _ Hs1 Hs).
    + injection Hs1 as <-. by apply settle_rpc_settled.
Qed.

Lemma mount_rpc_settled hl : ∃ s, mount = Some s ∧ rpc_settled hl s.
Proof.
  eexists. split; [vm_compute; reflexivity|].
  split; [|split; [|split]].
  - exists EmptyString, EmptyString. split; [reflexivity|]. split; by left.
  - repeat constructor.
  - constructor.
  - cbn. lia.
Qed.

Lemma run_App_rpc_settled hl es s : run_App hl es = Some s → rpc_settled hl s.
Proof.
  unfold run_App. destruct (mount_rpc_settled hl) as (s0 & -> & H0).
  intros Hrun. by eapply run_rpc_settled.
Qed.

(** X6: the RPC section is out of reach of the tab bar and of the order in
    which promises settle: through every run its two blocks stay the
    instances mounted at load, with their own code and titles, and each
    shows either nothing yet or exactly the markup of its own code. *)
Theorem rpc_blocks_never_stale (hl : Shiki.Highlighter) (es : list Event) :
  ∃ s c0 c1,
    run_App hl es = Some s ∧
    rpc s = [code_slot c0; code_slot c1] ∧
    map slot_block (rpc s) = rpcBlocks ∧
    inst c0 = 0 ∧ inst c1 = 1 ∧
    empty_or_own hl c0 ∧ empty_or_own hl c1.
Proof.
  destruct (run_App_on_topic hl es) as (s & t & Hs & _ & _ & Hr).
  destruct (run_App_rpc_settled hl es s Hs) as ((h0 & h1 & Hrpc & H0 & H1) & _).
  exists s. do 2 eexists. split; [done|]. split; [exact Hrpc|]. done.
Qed.

Lemma render_App_below_fresh tab s s' :
  render_App tab s = Some s' → below_fresh s →
  below_fresh s' ∧ (fresh s ≤ fresh s')%nat ∧
  (∃ rq, pending s' = pending s ++ rq) ∧
  Forall (fun i => i ∈ ids (grid s) ∨ (fresh s ≤ i)%nat) (ids (grid s')).
Proof.
  unfold render_App, below_fresh. destruct (comparisons_get tab) as [member|]; [|done].
  destruct (reconcile (fresh s) (grid s) _) as [[g rq1] n1] eqn:Hg.
  destruct (reconcile n1 (rpc s) rpcBlocks) as [[r rq2] n2] eqn:Hr.
  intros [= <-]. cbn [grid rpc pending fresh]. rewrite !ids_app.
  intros [Hids Hp]. apply Forall_app in Hids as [Hi1 Hi2].
  destruct (reconcile_targets _ _ _ _ _ _ Hg) as (Hle1 & Hsub1 & Htg1).
  destruct (reconcile_targets _ _ _ _ _ _ Hr) as (Hle2 & Hsub2 & Htg2).
  rewrite Forall_forall in Hi1. rewrite Forall_forall in Hi2.
  rewrite Forall_forall in Hsub1. rewrite Forall_forall in Hsub2.
  assert (∀ i, i ∈ ids g → i < n2) as Hg2.
  { intros i Hi. destruct (Hsub1 _ Hi) as [Ho|Hn]; [specialize (Hi1 _ Ho); cbn in Hi1|]; lia. }
  assert (∀ i, i ∈ ids r → i < n2) as Hr2.
  { intros i Hi. destruct (Hsub2 _ Hi) as [Ho|Hn]; [specialize (Hi2 _ Ho); cbn in Hi2|]; lia. }
  split; [split|split; [lia|split]].
  - apply Forall_app. split; by apply Forall_forall.
  - rewrite Forall_forall in Htg1. rewrite Forall_forall in Htg2.
    apply Forall_app. split; [|apply Forall_app; split].
    + eapply Forall_impl; [exact Hp|]. cbn. lia.
    + apply Forall_forall. intros q Hq. apply Hg2. by apply Htg1.
    + apply Forall_forall. intros q Hq. apply Hr2. by apply Htg2.
  - by eexists.
  - apply Forall_forall. intros i Hi.
    destruct (Hsub1 _ Hi) as [Ho|Hn]; [by left|right; lia].
Qed.

Lemma settle_below_fresh hl k s : below_fresh s → below_fresh (settle hl k s).
Proof.
  unfold settle. destruct (pending s !! k) as [r|]; [|done].
  unfold below_fresh. cbn [grid rpc pending fresh].
  rewrite <- fmap_app, ids_store. intros [Hi Hp].
  split; [done|by apply Forall_delete].
Qed.

Lemma run_below_fresh hl es : ∀ s s',
  run hl s es = Some s' → below_fresh s → below_fresh s'.
Proof.
  induction es as [|e es IH]; intros s s'; cbn.
  - by intros [= <-].
  - destruct (step hl s e) as [s1|] eqn:Hs1; [|done].
    intros Hrun Hs. eapply IH; [exact Hrun|].
    destruct e as [b|k]; cbn in Hs1.
    + destruct (tabs !! b) as [tab|]; [|by injection Hs1 as <-].
      by destruct (render_App_below_fresh _ _ _ Hs1 Hs).
    + injection Hs1 as <-. by apply settle_below_fresh.
Qed.

Lemma run_App_below_fresh hl es s : run_App hl es = Some s → below_fresh s.
Proof.
  unfold run_App, mount.
  destruct (render_App initial_tab unmounted) as [s0|] eqn:H0; [|done].
  intros Hrun. eapply run_below_fresh; [exact Hrun|].
  apply (render_App_below_fresh _ _ _ H0). split; constructor.
Qed.

Lemma receive_other i r c : inst c ≠ i → receive i r c = c.
Proof. intros H. unfold receive. by destruct (Nat.eqb_spec (inst c) i). Qed.

Lemma shown_markup_settle_other hl k s r :
  pending s !! k = Some r → target r ∉ ids (grid s) →
  shown_markup (settle hl k s) = shown_markup s.
Proof.
  intros Hk Hr. unfold settle, shown_markup. rewrite Hk. cbn [grid].
  rewrite codes_store. unfold ids in Hr. rewrite <- list_fmap_compose.
  apply list_fmap_ext. intros j c Hc. cbn. rewrite receive_other; [done|].
  intros E. apply Hr. rewrite <- E. apply list_elem_of_fmap.
  exists c. split; [done|]. by eapply list_elem_of_lookup_2.
Qed.

(** X8: passing through the File Structure tab cuts every earlier promise
    off from the display.  After a click on File Structure and a click
    on any tab, the code blocks of the grid are new instances with empty
    markup, and a promise that was already pending before the two clicks
    settles without changing what the grid shows. *)
Theorem structure_visit_drops_earlier_promises (hl : Shiki.Highlighter)
    (es : list Event) (b k : nat) (s s1 s2 : Page) :
  run_App hl es = Some s →
  step hl s (Click 0) = Some s1 →
  step hl s1 (Click b) = Some s2 →
  k < length (pending s) →
  Forall (fun m => m = EmptyString) (shown_markup s2) ∧
  length (shown_markup s2) = length (omap code_of (getBlocks (activeTab s2))) ∧
  pending s2 !! k = pending s !! k ∧
  shown_markup (settle hl k s2) = shown_markup s2.
Proof.
  intros Hs H1 H2 Hk.
  pose proof (run_App_below_fresh _ _ _ Hs) as Hbf.
  cbn in H1. change (tabs !! 0) with (Some {| id := "structure"; label := "File Structure" |}) in H1.
  cbn [id] in H1.
  destruct (render_App_below_fresh _ _ _ H1 Hbf) as (Hbf1 & Hf1 & [rq1 Hp1] & _).
  destruct (render_App_topic structure s) as (s1' & Hs1' & _ & Hg1 & _).
  change (TabType_key structure) with "structure" in Hs1'.
  rewrite H1 in Hs1'. injection Hs1' as <-.
  assert (∀ j, match grid s1 !! j with Some (code_slot _) => False | _ => True end) as Htree.
  { intros j. destruct (grid s1) as [|[p1|c1] [|[p2|c2] [|? ?]]]; try discriminate Hg1.
    by destruct j as [|[|j]]. }
  assert (ids (grid s1) = []) as Hids1.
  { destruct (grid s1) as [|[p1|c1] [|[p2|c2] [|? ?]]]; try discriminate Hg1. done. }
  assert (Forall (fun m => m = EmptyString) (shown_markup s2) ∧
          (∃ rq, pending s2 = pending s ++ rq) ∧
          Forall (fun i => fresh s ≤ i)%nat (ids (grid s2)) ∧
          length (shown_markup s2) = length (omap code_of (getBlocks (activeTab s2))))
    as (Hempty & [rq Hp2] & Hids2 & Hlen).
  { cbn in H2. destruct (tabs !! b) as [tab|] eqn:Hb.
    - destruct (render_App_below_fresh _ _ _ H2 Hbf1) as (_ & _ & [rq2 Hp2] & Hsub).
      split; [|split; [|split]].
      + unfold shown_markup. apply Forall_forall. intros m Hm.
        apply list_elem_of_fmap in Hm as (c & -> & Hc).
        apply list_elem_of_omap in Hc as (sl & Hsl & Hsome).
        destruct sl as [p|c']; [done|]. injection Hsome as ->.
        apply list_elem_of_lookup in Hsl as [j Hj].
        pose proof (render_App_keeps_markup _ _ _ _ _ H2 Hj) as Hkeep.
        specialize (Htree j). by destruct (grid s1 !! j) as [[p|c0]|].
      + exists (rq1 ++ rq2). by rewrite Hp2, Hp1, app_assoc.
      + rewrite Hids1 in Hsub. eapply Forall_impl; [exact Hsub|]. cbn.
        intros i [Hi|Hi]; [by apply elem_of_nil in Hi|lia].
      + destruct (tabs_are_topics _ _ Hb) as [t' Ht']. rewrite Ht' in H2.
        destruct (render_App_topic t' s1) as (s2' & Hs2' & Ha2 & Hg2 & _).
        rewrite H2 in Hs2'. injection Hs2' as <-. rewrite Ha2, <- Hg2.
        unfold shown_markup, codes. rewrite length_map.
        clear. induction (grid s2) as [|[p|c] g IH]; cbn; [done|done|by f_equal].
    - injection H2 as <-. unfold shown_markup, codes.
      split; [|split; [by exists rq1|split]].
      + unfold ids, codes in Hids1. apply fmap_nil_inv in Hids1. rewrite Hids1. constructor.
      + rewrite Hids1. constructor.
      + unfold ids, codes in Hids1. apply fmap_nil_inv in Hids1. rewrite Hids1.
        destruct (render_App_topic structure s) as (s1'' & Hs1'' & Ha1 & _).
        change (TabType_key structure) with "structure" in Hs1''.
        rewrite H1 in Hs1''. injection Hs1'' as <-. by rewrite Ha1. }
  split; [done|]. split; [done|].
  assert (pending s2 !! k = pending s !! k) as Hlook.
  { rewrite Hp2. by apply lookup_app_l. }
  split; [done|].
  destruct (lookup_lt_is_Some_2 _ _ Hk) as [r Hr].
  apply (shown_markup_settle_other hl k s2 r); [by rewrite Hlook|].
  intros Hin. destruct Hbf as [_ Hpend].
  rewrite Forall_forall in Hpend. rewrite Forall_forall in Hids2.
  specialize (Hids2 _ Hin). cbn in Hids2.
  specialize (Hpend r (list_elem_of_lookup_2 _ _ _ Hr)). cbn in Hpend. lia.
Qed.

(** ** The requests a click issues *)

Lemma on_topic_grid t s :
  on_topic t s →
  ∃ sl1 sl2, grid s = [sl1; sl2] ∧
             slot_block sl1 :: slot_block sl2 :: [] = getBlocks (TabType_key t).
Proof.
  intros (_ & Hg & _).
  assert (length (grid s) = 2) as Hlen.
  { rewrite <- (length_map slot_block), Hg. by destruct t. }
  destruct (grid s) as [|sl1 [|sl2 [|? ?]]]; try discriminate Hlen.
  by exists sl1, sl2.
Qed.

(** X7: a click on another tab asks the highlighter for exactly the code
    blocks of the new topic, one request per block and for its new code;
    a click on the current tab or on File Structure asks for nothing,
    and the blocks of the RPC section are never asked for again. *)
Theorem click_requests (hl : Shiki.Highlighter) (es : list Event) (b : nat) :
  ∃ s s',
    run_App hl es = Some s ∧
    step hl s (Click b) = Some s' ∧
    rpc s' = rpc s ∧
    pending s' =
      pending s ++ (if activeTab s' =? activeTab s then [] else grid_requests s').
Proof.
  destruct (run_App_on_topic hl es) as (s & t & Hs & Ht).
  pose proof (run_App_rpc_settled hl es s Hs) as ((h0 & h1 & Hrpc & _) & _).
  destruct (on_topic_grid t s Ht) as (sl1 & sl2 & Hgrid & Hblocks).
  destruct Ht as (Ha & _ & _).
  exists s. destruct s as [a g r p f]. cbn in Ha, Hrpc, Hgrid. subst a g r.
  do 5 (destruct b as [|b];
    [ destruct t; injection Hblocks as H1 H2;
      destruct sl1 as [[tr1 ti1]|[i1 [c1 l1 t1] m1]]; try discriminate H1;
      destruct sl2 as [[tr2 ti2]|[i2 [c2 l2 t2] m2]]; try discriminate H2;
      cbn in H1, H2; simplify_eq;
      (eexists; split; [exact Hs|]; split; [vm_compute; reflexivity|];
       split; vm_compute; reflexivity) |]).
  eexists. split; [exact Hs|]. split; [reflexivity|]. split; [reflexivity|].
  cbn. by rewrite String.eqb_refl, app_nil_r.
Qed.

(** ** One switch at a time *)















(** ** What a CodeBlock puts on the page *)

(** X10: a [CodeBlock] puts two things on the page and nothing else: its
    title, as text in a header that is left out when the title is
    missing or empty, and the markup held in [html], inserted as it is.
    The code itself is never rendered as text. *)
Theorem CodeBlock_title_and_markup_only (p : CodeBlock.Props) (h : string) :
  rawMarkup (CodeBlock.render p h) = [h] ∧
  textContent (CodeBlock.render p h) = default EmptyString (CodeBlock.title p) ∧
  length (byTag "span" (CodeBlock.render p h)) =
    match CodeBlock.title p with
    | Some (String _ _) => 1
    | _ => 0
    end.
Proof.
  split; [apply rawMarkup_render|].
  unfold CodeBlock.render. destruct (CodeBlock.title p) as [[|a t]|]; cbn; [done| |done].
  split; [|done]. change (EmptyString +:+ EmptyString) with EmptyString.
  by rewrite !append_empty.
Qed.

(** ** The further properties at work *)

(** "rpc" is no topic and no inherited name: a render with it fails.
    "constructor" is no topic either, but every object has it: the
    render goes through with nothing to show. *)
Lemma render_off_topic_witness :
  (∀ t, "rpc" ≠ TabType_key t) ∧
  render_App "rpc" unmounted = None ∧
  (∀ t, "constructor" ≠ TabType_key t) ∧
  (∃ s' v, render_App "constructor" unmounted = Some s' ∧
           grid s' = [] ∧ view s' = Some v ∧
           summary_nextjs v = EmptyString ∧ summary_hono v = EmptyString).
Proof.
  assert (∀ t, "rpc" ≠ TabType_key t) as H1 by (intros t; destruct t; discriminate).
  assert (∀ t, "constructor" ≠ TabType_key t) as H2 by (intros t; destruct t; discriminate).
  destruct (render_off_topic "rpc" unmounted H1) as (_ & _ & _ & Hr).
  destruct (render_off_topic "constructor" unmounted H2) as (_ & _ & _ & Hc).
  change (bool_decide ("rpc" ∈ Object_prototype_keys)) with false in Hr.
  change (bool_decide ("constructor" ∈ Object_prototype_keys)) with true in Hc.
  destruct Hc as (s' & v & Hs' & _ & Hg & Hv & Hn & Hh & _).
  split; [exact H1|]. split; [exact Hr|]. split; [exact H2|].
  exists s', v. split; [exact Hs'|]. split; [exact Hg|]. split; [exact Hv|].
  split; [exact Hn|exact Hh].
Defined.

(** From "routing", highlighted, to "auth": the left block keeps its
    instance and the routing markup under the auth props. *)
Lemma rerender_keeps_markup_witness :
  render_App "auth" (page_after routing_highlighted)
    = Some (page_after (routing_highlighted ++ [Click 2])) ∧
  grid (page_after (routing_highlighted ++ [Click 2])) !! 0
    = Some (code_slot auth_block_unsettled) ∧
  match grid (page_after routing_highlighted) !! 0 with
  | Some (code_slot c) =>
      inst auth_block_unsettled = inst c ∧ html auth_block_unsettled = html c
  | _ => html auth_block_unsettled = EmptyString
  end.
Proof.
  assert (render_App "auth" (page_after routing_highlighted)
          = Some (page_after (routing_highlighted ++ [Click 2]))) as H1
    by (vm_compute; reflexivity).
  assert (grid (page_after (routing_highlighted ++ [Click 2])) !! 0
          = Some (code_slot auth_block_unsettled)) as H2
    by (vm_compute; reflexivity).
  exact (conj H1 (conj H2
    (rerender_keeps_markup "auth" (page_after routing_highlighted)
       (page_after (routing_highlighted ++ [Click 2])) 0 auth_block_unsettled H1 H2))).
Defined.

(** Routing, then File Structure, then auth: the routing promise of the
    left block (third in the queue) settles and the grid stays empty. *)
Lemma structure_visit_drops_earlier_promises_witness :
  run_App demo_highlighter [Click 1] = Some (page_after [Click 1]) ∧
  step demo_highlighter (page_after [Click 1]) (Click 0)
    = Some (page_after [Click 1; Click 0]) ∧
  step demo_highlighter (page_after [Click 1; Click 0]) (Click 2)
    = Some (page_after [Click 1; Click 0; Click 2]) ∧
  2 < length (pending (page_after [Click 1])) ∧
  shown_markup (settle demo_highlighter 2 (page_after [Click 1; Click 0; Click 2]))
    = shown_markup (page_after [Click 1; Click 0; Click 2]) ∧
  length (shown_markup (page_after [Click 1; Click 0; Click 2]))
    = length (omap code_of (getBlocks (activeTab (page_after [Click 1; Click 0; Click 2])))).
Proof.
  assert (run_App demo_highlighter [Click 1] = Some (page_after [Click 1])) as H1
    by (vm_compute; reflexivity).
  assert (step demo_highlighter (page_after [Click 1]) (Click 0)
          = Some (page_after [Click 1; Click 0])) as H2
    by (vm_compute; reflexivity).
  assert (step demo_highlighter (page_after [Click 1; Click 0]) (Click 2)
          = Some (page_after [Click 1; Click 0; Click 2])) as H3
    by (vm_compute; reflexivity).
  assert (2 < length (pending (page_after [Click 1]))) as H4
    by (vm_compute; lia).
  destruct (structure_visit_drops_earlier_promises demo_highlighter [Click 1] 2 2
              (page_after [Click 1]) (page_after [Click 1; Click 0])
              (page_after [Click 1; Click 0; Click 2]) H1 H2 H3 H4)
    as (_ & Hlen & _ & Hkeep).
  split; [exact H1|]. split; [exact H2|]. split; [exact H3|].
  split; [exact H4|]. split; [exact Hkeep|exact Hlen].
Defined.

